(** * iap: client engine of the IAP tunnelling protocol

    A shallow embedding of [src/iap/iap.go].  The connection object is a
    record; every method of [*Conn] becomes a function that takes the record
    and returns the error (if any) together with the updated record.  The
    collaborators the engine only talks to through an interface (the
    websocket connection, the two [io.Pipe]s and the channel [sendNbCh]) are
    represented by the part of their state the engine can observe.  *)

From Stdlib Require Import String.
From Stdlib Require Import ZArith List Bool Lia.
From Stdlib Require Import Init.Byte.
Import ListNotations.
Local Open Scope Z_scope.

(** ** Bytes and big-endian integers *)

Definition b2z (b : byte) : Z := Z.of_N (Byte.to_N b).

Definition z2b (z : Z) : byte :=
  match Byte.of_N (Z.to_N (z mod 256)) with
  | Some b => b
  | None => x00
  end.

(** [binary.BigEndian.Uint16], [Uint32] and [Uint64], by the length of the
    slice they are given. *)
Definition bigEndian (bs : list byte) : Z :=
  fold_left (fun acc b => acc * 256 + b2z b) bs 0.

(** [binary.Write(w, binary.BigEndian, v)] for an unsigned [v] of [n] bytes. *)
Fixpoint putBigEndian (n : nat) (v : Z) : list byte :=
  match n with
  | O => []
  | S k => putBigEndian k (v / 256) ++ [z2b v]
  end.

Definition uint32 (z : Z) : Z := z mod 2 ^ 32.
Definition uint64 (z : Z) : Z := z mod 2 ^ 64.
Definition add64 (a b : Z) : Z := uint64 (a + b).
Definition sub64 (a b : Z) : Z := uint64 (a - b).

(** ** Constants *)

Definition subprotoMaxFrameSize : Z := 16384.
Definition subprotoTagSuccess : Z := 1.
Definition subprotoTagData : Z := 4.
Definition subprotoTagAck : Z := 7.

(** ** Errors *)

Inductive error : Type :=
| io_EOF
| io_ErrClosedPipe
| ErrLenExceeds          (* "len exceeds subprotocol max data frame size" *)
| ErrBeforeConnected     (* "Received frame before connection was established" *)
| ErrProxyClosed (code : Z) (reason : string)
| ErrTransport (msg : string).

(** The two errors the engine raises on a malformed exchange. *)
Definition isProtocolError (e : error) : bool :=
  match e with
  | ErrLenExceeds | ErrBeforeConnected => true
  | _ => false
  end.

(** ** The connection *)

Record Conn : Type := mkConn {
  (* conn *websocket.Conn: whether it was closed, and the messages sent *)
  wsClosed : bool;
  wsSent : list (list byte);
  connected : bool;
  sessionID : list byte;

  recvNbAcked : Z;
  recvNbUnacked : Z;
  (* recvReader / recvWriter: bytes written and not yet read; closed? *)
  recvPipe : list byte;
  recvPipeClosed : bool;

  sendNbAcked : Z;
  sendNbUnacked : Z;
  (* sendNbCh: announcements of senders waiting at the channel; closed? *)
  sendNbCh : list Z;
  sendNbChClosed : bool;
  (* sendReader / sendWriter: bytes handed over by Write and not yet framed *)
  sendPipe : list byte
}.

Definition set_wsClosed (v : bool) (c : Conn) : Conn :=
  mkConn v (wsSent c) (connected c) (sessionID c) (recvNbAcked c)
    (recvNbUnacked c) (recvPipe c) (recvPipeClosed c) (sendNbAcked c)
    (sendNbUnacked c) (sendNbCh c) (sendNbChClosed c) (sendPipe c).

Definition set_wsSent (v : list (list byte)) (c : Conn) : Conn :=
  mkConn (wsClosed c) v (connected c) (sessionID c) (recvNbAcked c)
    (recvNbUnacked c) (recvPipe c) (recvPipeClosed c) (sendNbAcked c)
    (sendNbUnacked c) (sendNbCh c) (sendNbChClosed c) (sendPipe c).

Definition set_connected (v : bool) (c : Conn) : Conn :=
  mkConn (wsClosed c) (wsSent c) v (sessionID c) (recvNbAcked c)
    (recvNbUnacked c) (recvPipe c) (recvPipeClosed c) (sendNbAcked c)
    (sendNbUnacked c) (sendNbCh c) (sendNbChClosed c) (sendPipe c).

Definition set_sessionID (v : list byte) (c : Conn) : Conn :=
  mkConn (wsClosed c) (wsSent c) (connected c) v (recvNbAcked c)
    (recvNbUnacked c) (recvPipe c) (recvPipeClosed c) (sendNbAcked c)
    (sendNbUnacked c) (sendNbCh c) (sendNbChClosed c) (sendPipe c).

Definition set_recvNbAcked (v : Z) (c : Conn) : Conn :=
  mkConn (wsClosed c) (wsSent c) (connected c) (sessionID c) v
    (recvNbUnacked c) (recvPipe c) (recvPipeClosed c) (sendNbAcked c)
    (sendNbUnacked c) (sendNbCh c) (sendNbChClosed c) (sendPipe c).

Definition set_recvNbUnacked (v : Z) (c : Conn) : Conn :=
  mkConn (wsClosed c) (wsSent c) (connected c) (sessionID c) (recvNbAcked c)
    v (recvPipe c) (recvPipeClosed c) (sendNbAcked c)
    (sendNbUnacked c) (sendNbCh c) (sendNbChClosed c) (sendPipe c).

Definition set_recvPipe (v : list byte) (c : Conn) : Conn :=
  mkConn (wsClosed c) (wsSent c) (connected c) (sessionID c) (recvNbAcked c)
    (recvNbUnacked c) v (recvPipeClosed c) (sendNbAcked c)
    (sendNbUnacked c) (sendNbCh c) (sendNbChClosed c) (sendPipe c).

Definition set_sendNbAcked (v : Z) (c : Conn) : Conn :=
  mkConn (wsClosed c) (wsSent c) (connected c) (sessionID c) (recvNbAcked c)
    (recvNbUnacked c) (recvPipe c) (recvPipeClosed c) v
    (sendNbUnacked c) (sendNbCh c) (sendNbChClosed c) (sendPipe c).

Definition set_sendNbUnacked (v : Z) (c : Conn) : Conn :=
  mkConn (wsClosed c) (wsSent c) (connected c) (sessionID c) (recvNbAcked c)
    (recvNbUnacked c) (recvPipe c) (recvPipeClosed c) (sendNbAcked c)
    v (sendNbCh c) (sendNbChClosed c) (sendPipe c).

Definition set_sendNbCh (v : list Z) (c : Conn) : Conn :=
  mkConn (wsClosed c) (wsSent c) (connected c) (sessionID c) (recvNbAcked c)
    (recvNbUnacked c) (recvPipe c) (recvPipeClosed c) (sendNbAcked c)
    (sendNbUnacked c) v (sendNbChClosed c) (sendPipe c).

Definition set_sendNbChClosed (v : bool) (c : Conn) : Conn :=
  mkConn (wsClosed c) (wsSent c) (connected c) (sessionID c) (recvNbAcked c)
    (recvNbUnacked c) (recvPipe c) (recvPipeClosed c) (sendNbAcked c)
    (sendNbUnacked c) (sendNbCh c) v (sendPipe c).

Definition set_sendPipe (v : list byte) (c : Conn) : Conn :=
  mkConn (wsClosed c) (wsSent c) (connected c) (sessionID c) (recvNbAcked c)
    (recvNbUnacked c) (recvPipe c) (recvPipeClosed c) (sendNbAcked c)
    (sendNbUnacked c) (sendNbCh c) (sendNbChClosed c) v.

(** The object Dial builds at lines 115-126: every field Go leaves out is
    zero, the two pipes and the channel are fresh. *)
Definition newConn : Conn :=
  mkConn false [] false [] 0 0 [] false 0 0 [] false [].

(** ** Readers

    The [io.Reader] of one transport message is the list of its bytes not
    yet consumed.  [Reader_Read r buf n] is [r.Read(buf[:n])]: at the end of
    the message it reports [io.EOF] ([None]); otherwise it stores as many
    bytes as are there, at most [n], at the front of [buf], and the rest of
    [buf] keeps what it held. *)

Definition Reader : Type := list byte.

Definition Reader_Read (r : Reader) (buf : list byte) (n : nat)
  : option (list byte * Reader) :=
  match r with
  | [] => None
  | _ :: _ =>
      let k := Nat.min n (length r) in
      Some (firstn k r ++ skipn k buf, skipn k r)
  end.

(** [make([]byte, n)] *)
Definition make (n : Z) : list byte := repeat x00 (Z.to_nat n).

(** What the transport hands to [c.conn.Reader]. *)
Inductive recvEvent : Type :=
| Message (m : list byte)
| CloseError (code : Z) (reason : string)
| RecvFailed (msg : string).

(** ** Methods of Conn *)

Definition SessionID (c : Conn) : list byte := sessionID c.
Definition Sent (c : Conn) : Z := sendNbAcked c.
Definition Received (c : Conn) : Z := recvNbAcked c.

(** The frame an Ack writer emits, lines 176-177. *)
Definition ackFrame (bytes : Z) : list byte :=
  putBigEndian 2 subprotoTagAck ++ putBigEndian 8 bytes.

(** The frame one turn of the outbound loop emits, lines 292-295. *)
Definition dataFrame (payload : list byte) : list byte :=
  putBigEndian 2 subprotoTagData
    ++ putBigEndian 4 (uint32 (Z.of_nat (length payload))) ++ payload.

(** [c.conn.Writer] fails once the websocket connection is closed. *)
Definition writeAck (c : Conn) (bytes : Z) : option error * Conn :=
  if wsClosed c then (Some (ErrTransport "writer"), c)
  else (None, set_wsSent (wsSent c ++ [ackFrame bytes]) c).

Definition readSuccessFrame (c : Conn) (buf : list byte) (r : Reader)
  : option error * Conn :=
  match Reader_Read r buf 4 with
  | None => (Some io_EOF, c)
  | Some (buf1, r1) =>
      let len := bigEndian (firstn 4 buf1) in
      if len >? subprotoMaxFrameSize then (Some ErrLenExceeds, c)
      else
        let c1 := set_sessionID (make len) c in
        match Reader_Read r1 (sessionID c1) (Z.to_nat len) with
        | None => (Some io_EOF, c1)
        | Some (sid, _) => (None, set_connected true (set_sessionID sid c1))
        end
  end.

Definition readAckFrame (c : Conn) (buf : list byte) (r : Reader)
  : option error * Conn :=
  match Reader_Read r buf 8 with
  | None => (Some io_EOF, c)
  | Some (buf1, _) =>
      (None, set_sendNbAcked (bigEndian (firstn 8 buf1)) c)
  end.

(** [copyNBuffer(c.recvWriter, r, n, c.recvBuf)]: the limited reader ends
    after [n] bytes or with the message, which ends the copy without an
    error; a write to a closed pipe fails. *)
Definition copyToRecv (c : Conn) (r : Reader) (n : Z) : option error * Conn :=
  match firstn (Z.to_nat n) r with
  | [] => (None, c)
  | data =>
      if recvPipeClosed c then (Some io_ErrClosedPipe, c)
      else (None, set_recvPipe (recvPipe c ++ data) c)
  end.

Definition readDataFrame (c : Conn) (buf : list byte) (r : Reader)
  : option error * Conn :=
  match Reader_Read r buf 4 with
  | None => (Some io_EOF, c)
  | Some (buf1, r1) =>
      let len := bigEndian (firstn 4 buf1) in
      if len >? subprotoMaxFrameSize then (Some ErrLenExceeds, c)
      else
        match copyToRecv c r1 len with
        | (Some e, c1) => (Some e, c1)
        | (None, c1) =>
            (None, set_recvNbUnacked (add64 (recvNbUnacked c1) len) c1)
        end
  end.

Definition readFrame (c : Conn) (ev : recvEvent) : option error * Conn :=
  match ev with
  | CloseError code reason => (Some (ErrProxyClosed code reason), c)
  | RecvFailed msg => (Some (ErrTransport msg), c)
  | Message m =>
      match Reader_Read m (make 8) 2 with
      | None => (Some io_EOF, c)
      | Some (buf, reader) =>
          let tag := bigEndian (firstn 2 buf) in
          if tag =? subprotoTagSuccess then readSuccessFrame c buf reader
          else if negb (connected c) then (Some ErrBeforeConnected, c)
          else if tag =? subprotoTagAck then readAckFrame c buf reader
          else if tag =? subprotoTagData then
            let (err, c1) := readDataFrame c buf reader in
            if sub64 (recvNbUnacked c1) (recvNbAcked c1)
                 >? 2 * subprotoMaxFrameSize
            then
              match writeAck c1 (recvNbUnacked c1) with
              | (Some e, c2) => (Some e, c2)
              | (None, c2) => (err, set_recvNbAcked (recvNbUnacked c2) c2)
              end
            else (err, c1)
          else (None, c)
      end
  end.

(** What a call does from the caller's side: it returns, it stays blocked
    on a pipe or channel nobody serves, or it panics. *)
Inductive outcome : Type :=
| Returns (err : option error)
| Blocks
| Panics (msg : string).

(** The body of the loop of [writeFrame], lines 283-302.  The copy from
    [c.sendReader] waits until the pipe holds the whole chunk: the pipe is
    never closed, so a shorter chunk leaves the loop blocked.  [fuel] bounds
    the number of turns; [writeFrame] passes enough of it
    ([writeChunks_fuel]). *)
Fixpoint writeChunks (fuel : nat) (nb : Z) (c : Conn) : outcome * Conn :=
  if nb >? 0 then
    match fuel with
    | O => (Blocks, c)
    | S fuel' =>
        let nbLimit := Z.min nb subprotoMaxFrameSize in
        if wsClosed c then (Returns (Some (ErrTransport "writer")), c)
        else if Z.of_nat (length (sendPipe c)) <? nbLimit then (Blocks, c)
        else
          let payload := firstn (Z.to_nat nbLimit) (sendPipe c) in
          let frame := putBigEndian 2 subprotoTagData
                         ++ putBigEndian 4 (uint32 nbLimit) ++ payload in
          let c1 := set_sendPipe (skipn (Z.to_nat nbLimit) (sendPipe c))
                      (set_wsSent (wsSent c ++ [frame]) c) in
          let c2 := set_sendNbUnacked (add64 (sendNbUnacked c1) nbLimit) c1 in
          writeChunks fuel' (nb - nbLimit) c2
    end
  else (Returns None, c).

(** [nb, ok := <-c.sendNbCh]: the announcement of the sender waiting at the
    channel, or [ok = false] once the channel is closed. *)
Definition writeFrame (c : Conn) : outcome * Conn :=
  match sendNbCh c with
  | nb :: rest =>
      writeChunks (Z.to_nat (nb / subprotoMaxFrameSize + 1)) nb
        (set_sendNbCh rest c)
  | [] =>
      if sendNbChClosed c then (Returns (Some io_EOF), c) else (Blocks, c)
  end.

(** [Write] announces [len(buf)] on the channel and hands [buf] to the send
    pipe; the outcome is the one the caller sees once the outbound loop has
    taken both.  A send on a closed channel panics.  The pipe hands even an
    empty slice to a reader before its write returns, and the outbound loop
    reads nothing for an announcement of 0: a [Write] of an empty buffer
    stays blocked in [c.sendWriter.Write]. *)
Definition Write (c : Conn) (buf : list byte) : outcome * Conn :=
  if sendNbChClosed c then (Panics "send on closed channel", c)
  else
    (match buf with
     | [] => Blocks
     | _ :: _ => Returns None
     end,
     set_sendPipe (sendPipe c ++ buf)
       (set_sendNbCh (sendNbCh c ++ [Z.of_nat (length buf)]) c)).

(** [Close] closes the channel (closing a closed channel panics; a sender
    still waiting at it panics and its announcement is lost) and then the
    websocket connection. *)
Definition Close (c : Conn) : outcome * Conn :=
  if sendNbChClosed c then (Panics "close of closed channel", c)
  else
    let c1 := set_sendNbCh [] (set_sendNbChClosed true c) in
    (Returns (if wsClosed c1 then Some (ErrTransport "closed") else None),
     set_wsClosed true c1).



(** ** The two loops *)

Inductive loopState : Type := Running | Exited.

(** The inbound loop over the events the transport delivers; with no event
    left it waits in [c.conn.Reader]. *)
Fixpoint read (c : Conn) (evs : list recvEvent) : loopState * Conn :=
  match evs with
  | [] => (Running, c)
  | ev :: evs' =>
      match readFrame c ev with
      | (Some _, c1) => (Exited, c1)
      | (None, c1) => read c1 evs'
      end
  end.

Fixpoint writeTurns (fuel : nat) (c : Conn) : loopState * Conn :=
  match fuel with
  | O => (Running, c)
  | S fuel' =>
      match writeFrame c with
      | (Returns None, c1) => writeTurns fuel' c1
      | (Returns (Some _), c1) => (Exited, c1)
      | (Blocks, c1) => (Running, c1)
      | (Panics _, c1) => (Exited, c1)
      end
  end.

(** The outbound loop, run until it waits or exits: every turn that returns
    takes one announcement from the channel. *)
Definition write (c : Conn) : loopState * Conn :=
  writeTurns (S (length (sendNbCh c))) c.

(** ** Dial *)

Inductive goroutine : Type := go_read | go_write.

(** [dialErr] is the error of [websocket.Dial], [first] the event the
    handshake read meets.  The result is the pair Dial returns and the
    goroutines it has started. *)
Definition Dial (dialErr : option error) (first : recvEvent)
  : option Conn * option error * list goroutine :=
  match dialErr with
  | Some e => (None, Some e, [])
  | None =>
      match readFrame newConn first with
      | (Some e, _) => (None, Some e, [])
      | (None, c) => (Some c, None, [go_read; go_write])
      end
  end.

(** Sequential callers: each [Write] is followed by the outbound loop
    running until it waits for the next announcement.  A caller whose
    [Write] does not return makes no further call; the outbound loop still
    serves the announcement of that call. *)
Fixpoint sequentialWrites (c : Conn) (bufs : list (list byte))
  : loopState * Conn :=
  match bufs with
  | [] => (Running, c)
  | buf :: bufs' =>
      match Write c buf with
      | (Returns None, c1) =>
          match write c1 with
          | (Running, c2) => sequentialWrites c2 bufs'
          | (Exited, c2) => (Exited, c2)
          end
      | (Blocks, c1) => write c1
      | (_, c1) => (Exited, c1)
      end
  end.

(** ** Frames used in the examples *)

Definition successFrame (sid : list byte) : list byte :=
  putBigEndian 2 subprotoTagSuccess
    ++ putBigEndian 4 (Z.of_nat (length sid)) ++ sid.

Definition abc : list byte := ["a"; "b"; "c"]%byte.
Definition xyz : list byte := ["x"; "y"; "z"]%byte.

(** The connection right after a handshake with session identifier abc. *)
Definition established : Conn :=
  snd (readFrame newConn (Message (successFrame abc))).

(** ** Definitions used to state the properties *)

(** The tag [readFrame] dispatches on (lines 241-244), when the message
    has one. *)
Definition frameTag (m : list byte) : option Z :=
  match Reader_Read m (make 8) 2 with
  | None => None
  | Some (buf, _) => Some (bigEndian (firstn 2 buf))
  end.

(** One turn of either loop: the inbound loop meets an event, or a caller's
    [Write] is served by one turn of the outbound loop. *)
Inductive action : Type :=
| Inbound (ev : recvEvent)
| Outbound (buf : list byte).

Definition step (c : Conn) (a : action) : Conn :=
  match a with
  | Inbound ev => snd (readFrame c ev)
  | Outbound buf => snd (writeFrame (snd (Write c buf)))
  end.

Definition run (c : Conn) (acts : list action) : Conn := fold_left step acts c.

(** The most a run can add to receive-unacknowledged and to
    send-unacknowledged. *)
Fixpoint inboundBytes (acts : list action) : Z :=
  match acts with
  | [] => 0
  | Inbound _ :: acts' => subprotoMaxFrameSize + inboundBytes acts'
  | Outbound _ :: acts' => inboundBytes acts'
  end.

Fixpoint outboundBytes (acts : list action) : Z :=
  match acts with
  | [] => 0
  | Inbound _ :: acts' => outboundBytes acts'
  | Outbound buf :: acts' => Z.of_nat (length buf) + outboundBytes acts'
  end.

Definition maxFrameLen : nat := Z.to_nat subprotoMaxFrameSize.

(** The payloads of the frames one [Write] of [bs] is cut into: pieces of
    16384 bytes, the last one shorter when the length is no multiple. *)
Fixpoint chunksOf (fuel : nat) (bs : list byte) : list (list byte) :=
  match fuel with
  | O => []
  | S fuel' =>
      match bs with
      | [] => []
      | _ :: _ => firstn maxFrameLen bs :: chunksOf fuel' (skipn maxFrameLen bs)
      end
  end.

Definition chunks (bs : list byte) : list (list byte) :=
  chunksOf (length bs) bs.

(** The connection after the frames with payloads [ps] have been sent and
    [rest] is what the send pipe still holds. *)
Definition framed (ps : list (list byte)) (rest : list byte) (c : Conn)
  : Conn :=
  set_sendNbUnacked
    (fold_left (fun n p => add64 n (Z.of_nat (length p))) ps (sendNbUnacked c))
    (set_sendPipe rest (set_wsSent (wsSent c ++ map dataFrame ps) c)).

(** The buffers sequential callers get to hand over: a [Write] of an empty
    buffer does not return, so the buffers after it are never written. *)
Fixpoint writtenPrefix (bufs : list (list byte)) : list (list byte) :=
  match bufs with
  | [] => []
  | [] :: _ => []
  | buf :: bufs' => buf :: writtenPrefix bufs'
  end.

(** A Data frame as a peer may send it: the length field need not be the
    length of the payload that follows. *)
Definition rawDataFrame (len : Z) (payload : list byte) : list byte :=
  putBigEndian 2 subprotoTagData ++ putBigEndian 4 len ++ payload.

(** The difference line 261 compares with the threshold. *)
Definition window (c : Conn) : Z :=
  sub64 (recvNbUnacked c) (recvNbAcked c).

(** The connection after [readDataFrame] has copied [data] to the receive
    conduit for a frame whose length field is [len] (lines 221-224). *)
Definition delivered (len : Z) (data : list byte) (c : Conn) : Conn :=
  set_recvNbUnacked (add64 (recvNbUnacked c) len)
    (set_recvPipe (recvPipe c ++ data) c).

(** Lines 261-266 when the transport yields a writer. *)
Definition ackIfDue (c : Conn) : Conn :=
  if window c >? 2 * subprotoMaxFrameSize
  then set_recvNbAcked (recvNbUnacked c)
         (set_wsSent (wsSent c ++ [ackFrame (recvNbUnacked c)]) c)
  else c.

(** ** connectURL

    The options record is declared outside this file; [connectURL] reads
    nine string fields of it.  [url.QueryEscape] is a parameter. *)

Record dialOptions : Type := mkDialOptions {
  Zone : string;
  Region : string;
  Project : string;
  Port : string;
  Network : string;
  Interface : string;
  Instance : string;
  Host : string;
  Group : string
}.

Definition proxyHost : string := "tunnel.cloudproxy.app".
Definition proxyPath : string := "/v4/connect".

(** [slices.Sort] on the keys of a [url.Values]: the entries in ascending
    order of their keys. *)
Fixpoint insertByKey (kv : string * string) (l : list (string * string))
  : list (string * string) :=
  match l with
  | [] => [kv]
  | kv' :: l' =>
      if String.leb (fst kv) (fst kv') then kv :: l
      else kv' :: insertByKey kv l'
  end.

Definition sortByKey (l : list (string * string)) : list (string * string) :=
  fold_right insertByKey [] l.

(** One step of the deletion loop, lines 74-78: the entry stays when [keep]
    holds. *)
Definition keepIf (keep : bool) (kv : string * string)
  (l : list (string * string)) : list (string * string) :=
  if keep then kv :: l else l.

Section ConnectURL.

Variable QueryEscape : string -> string.

(** [url.Values.Encode] for values that hold one string per key. *)
Definition Encode (query : list (string * string)) : string :=
  String.concat "&"
    (map (fun kv => QueryEscape (fst kv) ++ "=" ++ QueryEscape (snd kv))
       (sortByKey query))%string.

(** [url.URL.String] for a URL with scheme, host, path and raw query,
    where host and path hold no character that is escaped (as for
    [proxyHost] and [proxyPath]). *)
Definition URL_String (scheme host path rawQuery : string) : string :=
  (scheme ++ ":" ++ "//" ++ host ++ path
     ++ (if String.eqb rawQuery "" then "" else "?" ++ rawQuery))%string.

Definition connectURL (dopts : dialOptions) : string :=
  let query :=
    [("zone", Zone dopts); ("region", Region dopts);
     ("project", Project dopts); ("port", Port dopts);
     ("network", Network dopts); ("interface", Interface dopts);
     ("instance", Instance dopts); ("host", Host dopts);
     ("group", Group dopts)]%string in
  let query := filter (fun kv => negb (String.eqb (snd kv) "")) query in
  URL_String "wss" proxyHost proxyPath (Encode query).

End ConnectURL.

(** ** Proof automation *)

Ltac break_match :=
  repeat match goal with
         | |- context [match ?x with _ => _ end] =>
             lazymatch x with
             | context [match _ with _ => _ end] => fail
             | _ => destruct x eqn:?
             end
         end.

Ltac inbound_cases :=
  unfold readFrame, readSuccessFrame, readAckFrame, readDataFrame,
    copyToRecv, writeAck;
  break_match; cbn; auto.

(** ** Examples *)

Example established_ok :
  Dial None (Message (successFrame abc))
  = (Some established, None, [go_read; go_write])
  /\ connected established = true /\ SessionID established = abc.
Proof. vm_compute. auto. Qed.

Example hello_world :
  let '(_, c) := read established
                   [Message (dataFrame ["h"; "e"; "l"; "l"; "o"]%byte);
                    Message (dataFrame [" "; "w"; "o"; "r"; "l"; "d"]%byte)] in
  recvPipe c
  = ["h"; "e"; "l"; "l"; "o"; " "; "w"; "o"; "r"; "l"; "d"]%byte.
Proof. vm_compute. reflexivity. Qed.

(** ** Bytes: basic facts *)

Lemma b2z_range (b : byte) : 0 <= b2z b < 256.
Proof.
  unfold b2z. pose proof (Byte.to_N_bounded b) as H.
  split; [apply N2Z.is_nonneg|].
  apply N.lt_succ_r in H. change (N.succ 255) with 256%N in H.
  apply N2Z.inj_lt in H. exact H.
Qed.

Lemma b2z_z2b (z : Z) : b2z (z2b z) = z mod 256.
Proof.
  unfold z2b, b2z.
  assert (Hr : 0 <= z mod 256 < 256) by (apply Z.mod_pos_bound; lia).
  destruct (Byte.of_N (Z.to_N (z mod 256))) as [b|] eqn:E.
  - apply Byte.to_of_N in E. rewrite E. rewrite Z2N.id; lia.
  - apply Byte.of_N_None_iff in E. lia.
Qed.

Lemma bigEndian_snoc (bs : list byte) (b : byte) :
  bigEndian (bs ++ [b]) = bigEndian bs * 256 + b2z b.
Proof. unfold bigEndian. rewrite fold_left_app. reflexivity. Qed.

Lemma bigEndian_range (bs : list byte) :
  0 <= bigEndian bs < 256 ^ Z.of_nat (length bs).
Proof.
  induction bs as [|b bs IH] using rev_ind.
  - cbn. lia.
  - rewrite bigEndian_snoc, length_app. cbn [length].
    replace (Z.of_nat (length bs + 1)) with (Z.succ (Z.of_nat (length bs))) by lia.
    rewrite Z.pow_succ_r by lia.
    pose proof (b2z_range b). nia.
Qed.

Lemma length_putBigEndian (n : nat) (v : Z) : length (putBigEndian n v) = n.
Proof.
  revert v. induction n as [|n IH]; intros v; cbn [putBigEndian].
  - reflexivity.
  - rewrite length_app, IH. cbn. lia.
Qed.

Lemma bigEndian_putBigEndian (n : nat) (v : Z) :
  bigEndian (putBigEndian n v) = v mod 256 ^ Z.of_nat n.
Proof.
  revert v. induction n as [|n IH]; intros v.
  - cbn. rewrite Z.mod_1_r. reflexivity.
  - cbn [putBigEndian]. rewrite bigEndian_snoc, IH, b2z_z2b.
    replace (Z.of_nat (S n)) with (Z.succ (Z.of_nat n)) by lia.
    rewrite Z.pow_succ_r by lia.
    assert (Hp : 0 < 256 ^ Z.of_nat n) by (apply Z.pow_pos_nonneg; lia).
    rewrite Z.rem_mul_r by lia. lia.
Qed.

Lemma frameTag_two (b0 b1 : byte) (rest : list byte) :
  frameTag (b0 :: b1 :: rest) = Some (bigEndian [b0; b1]).
Proof. reflexivity. Qed.

(** ** Frames with an unknown tag *)

(** C9.  On an established connection a frame whose tag is none of 0x1, 0x4
    and 0x7 is a no-op: [readFrame] returns no error and the very same
    connection (all four counters, the session identifier and the receive
    conduit included), so the inbound loop goes on with the next frame. *)
Theorem unknown_tag_ignored
  (c : Conn) (m : list byte) (tag : Z) (evs : list recvEvent) :
  connected c = true ->
  frameTag m = Some tag ->
  tag <> subprotoTagSuccess -> tag <> subprotoTagData ->
  tag <> subprotoTagAck ->
  readFrame c (Message m) = (None, c)
  /\ read c (Message m :: evs) = read c evs.
Proof.
  intros Hc Ht Hs Hd Ha.
  assert (Hf : readFrame c (Message m) = (None, c)).
  { unfold frameTag in Ht. unfold readFrame.
    destruct (Reader_Read m (make 8) 2) as [[buf r]|]; [|discriminate].
    assert (E : bigEndian (firstn 2 buf) = tag) by congruence. rewrite E.
    apply Z.eqb_neq in Hs, Hd, Ha. rewrite Hs, Hd, Ha, Hc. reflexivity. }
  split; [exact Hf|]. cbn [read]. rewrite Hf. reflexivity.
Qed.

Lemma unknown_tag_ignored_witness :
  readFrame established (Message [x00; x09]%byte) = (None, established)
  /\ read established [Message [x00; x09]%byte; CloseError 1000 "bye"]
     = read established [CloseError 1000 "bye"].
Proof.
  apply (unknown_tag_ignored established [x00; x09]%byte 9).
  - reflexivity.
  - reflexivity.
  - discriminate.
  - discriminate.
  - discriminate.
Defined.

(** ** Handshake *)

(** C6.  When the first message of the handshake carries a tag other than
    Success, [Dial] returns no connection and the protocol error "Received
    frame before connection was established", and starts no goroutine. *)
Theorem dial_rejects_non_success (m : list byte) (tag : Z) :
  frameTag m = Some tag ->
  tag <> subprotoTagSuccess ->
  Dial None (Message m) = (None, Some ErrBeforeConnected, [])
  /\ isProtocolError ErrBeforeConnected = true.
Proof.
  intros Ht Hs. split; [|reflexivity].
  unfold Dial, readFrame. unfold frameTag in Ht.
  destruct (Reader_Read m (make 8) 2) as [[buf r]|]; [|discriminate].
  assert (E : bigEndian (firstn 2 buf) = tag) by congruence. rewrite E.
  apply Z.eqb_neq in Hs. rewrite Hs. reflexivity.
Qed.

Lemma dial_rejects_non_success_witness :
  Dial None (Message (dataFrame abc)) = (None, Some ErrBeforeConnected, [])
  /\ isProtocolError ErrBeforeConnected = true.
Proof.
  apply (dial_rejects_non_success (dataFrame abc) 4).
  - reflexivity.
  - discriminate.
Defined.

(** ** Close *)

(** C10.  Once [Close] has returned, a [Write] panics with a send on the
    closed channel instead of returning an error, and a second [Close]
    panics with a close of the closed channel. *)
Theorem use_after_close_panics
  (c c1 : Conn) (err : option error) (buf : list byte) :
  Close c = (Returns err, c1) ->
  fst (Write c1 buf) = Panics "send on closed channel"
  /\ fst (Close c1) = Panics "close of closed channel".
Proof.
  unfold Close. intros H.
  destruct (sendNbChClosed c) eqn:E; [discriminate|].
  injection H as _ H. subst c1. split; reflexivity.
Qed.

Lemma use_after_close_panics_witness :
  fst (Write (snd (Close established)) abc) = Panics "send on closed channel"
  /\ fst (Close (snd (Close established))) = Panics "close of closed channel".
Proof.
  apply (use_after_close_panics established (snd (Close established)) None abc).
  reflexivity.
Defined.

(** ** Oversized length fields *)

(** C7.  A Data or Success payload whose length field exceeds 16384 is
    refused with the protocol error "len exceeds subprotocol max data frame
    size" and leaves the connection as it was.  For a whole frame with tag
    0x1 or 0x4 [readFrame] returns an error, delivers nothing to the receive
    conduit and leaves receive-unacknowledged and the session identifier as
    they were. *)
Theorem oversized_length_rejected
  (c : Conn) (b0 b1 l0 l1 l2 l3 : byte) (payload : list byte) :
  bigEndian [l0; l1; l2; l3] > subprotoMaxFrameSize ->
  let r := l0 :: l1 :: l2 :: l3 :: payload in
  let buf := b0 :: b1 :: skipn 2 (make 8) in
  readDataFrame c buf r = (Some ErrLenExceeds, c)
  /\ readSuccessFrame c buf r = (Some ErrLenExceeds, c)
  /\ isProtocolError ErrLenExceeds = true
  /\ (bigEndian [b0; b1] = subprotoTagSuccess
      \/ bigEndian [b0; b1] = subprotoTagData ->
      exists e c',
        readFrame c (Message (b0 :: b1 :: r)) = (Some e, c')
        /\ recvPipe c' = recvPipe c
        /\ recvNbUnacked c' = recvNbUnacked c
        /\ sessionID c' = sessionID c
        /\ connected c' = connected c).
Proof.
  intros HL r buf.
  assert (Hgt : (bigEndian [l0; l1; l2; l3] >? subprotoMaxFrameSize) = true)
    by (apply Z.gtb_lt; lia).
  assert (Hd : readDataFrame c buf r = (Some ErrLenExceeds, c)).
  { unfold readDataFrame, r, buf. cbn [Reader_Read length Nat.min firstn skipn app].
    rewrite Hgt. reflexivity. }
  assert (Hs : readSuccessFrame c buf r = (Some ErrLenExceeds, c)).
  { unfold readSuccessFrame, r, buf. cbn [Reader_Read length Nat.min firstn skipn app].
    rewrite Hgt. reflexivity. }
  repeat split; try assumption.
  intros Htag. unfold readFrame.
  change (Reader_Read (b0 :: b1 :: r) (make 8) 2) with (Some (buf, r)).
  cbv beta iota. change (firstn 2 buf) with [b0; b1].
  destruct Htag as [Htag|Htag]; rewrite Htag.
  - cbn [Z.eqb subprotoTagSuccess Pos.eqb]. rewrite Hs.
    exists ErrLenExceeds, c. auto.
  - change (subprotoTagData =? subprotoTagSuccess) with false.
    change (subprotoTagData =? subprotoTagAck) with false.
    change (subprotoTagData =? subprotoTagData) with true.
    cbv iota. destruct (connected c) eqn:Hc; cbn [negb].
    + rewrite Hd.
      destruct (sub64 (recvNbUnacked c) (recvNbAcked c) >? 2 * subprotoMaxFrameSize).
      * unfold writeAck. destruct (wsClosed c).
        -- eexists _, c. auto.
        -- eexists _, _. split; [reflexivity|]. auto.
      * exists ErrLenExceeds, c. auto.
    + exists ErrBeforeConnected, c. rewrite Hc. auto.
Qed.

Lemma oversized_length_rejected_witness :
  readDataFrame established (x00 :: x04 :: skipn 2 (make 8))
    [x00; x00; x40; x01; "a"]%byte = (Some ErrLenExceeds, established)
  /\ exists e c',
       readFrame established (Message [x00; x04; x00; x00; x40; x01; "a"]%byte)
       = (Some e, c')
       /\ recvPipe c' = recvPipe established
       /\ recvNbUnacked c' = recvNbUnacked established.
Proof.
  assert (H : bigEndian [x00; x00; x40; x01]%byte > subprotoMaxFrameSize)
    by (vm_compute; reflexivity).
  pose proof (oversized_length_rejected established x00 x04 x00 x00 x40 x01
                ["a"%byte] H) as (Hd & _ & _ & Hf).
  split; [exact Hd|].
  destruct (Hf (or_intror eq_refl)) as (e & c' & H1 & H2 & H3 & _).
  exists e, c'. auto.
Defined.

(** ** What the inbound side never touches *)


Lemma readFrame_outbound_fields (c : Conn) (ev : recvEvent) :
  let c' := snd (readFrame c ev) in
  sendNbUnacked c' = sendNbUnacked c
  /\ sendNbCh c' = sendNbCh c
  /\ sendNbChClosed c' = sendNbChClosed c
  /\ sendPipe c' = sendPipe c
  /\ wsClosed c' = wsClosed c.
Proof. inbound_cases. Qed.


(** ** The receive conduit after the inbound loop or the connection ends *)




(** ** The session identifier *)

(** C2, the claim fails.  A second Success frame, received on the
    established connection, replaces the session identifier. *)
Lemma second_success_reassigns :
  connected established = true
  /\ SessionID established = abc
  /\ readFrame established (Message (successFrame xyz))
     = (None, set_sessionID xyz established)
  /\ SessionID (snd (readFrame established (Message (successFrame xyz)))) = xyz
  /\ xyz <> abc.
Proof. vm_compute. repeat split; try reflexivity. discriminate. Qed.

Lemma Reader_Read_prefix (p r buf : list byte) :
  p <> [] ->
  Reader_Read (p ++ r) buf (length p)
  = Some (p ++ skipn (length p) buf, r).
Proof.
  intros Hp. unfold Reader_Read.
  destruct (p ++ r) as [|x l] eqn:E.
  - destruct p; [congruence|discriminate].
  - rewrite <- E. rewrite length_app.
    replace (Nat.min (length p) (length p + length r)) with (length p) by lia.
    rewrite firstn_app, skipn_app, Nat.sub_diag, firstn_all, skipn_all.
    cbn [firstn skipn app]. rewrite app_nil_r. reflexivity.
Qed.

Lemma firstn_prefix (p r : list byte) : firstn (length p) (p ++ r) = p.
Proof.
  rewrite firstn_app, Nat.sub_diag, firstn_all. cbn. apply app_nil_r.
Qed.

Lemma length_make (n : Z) : length (make n) = Z.to_nat n.
Proof. apply repeat_length. Qed.

Lemma Reader_Read_whole (p buf : list byte) :
  p <> [] -> length buf = length p ->
  Reader_Read p buf (length p) = Some (p, []).
Proof.
  intros Hp Hb. pose proof (Reader_Read_prefix p [] buf Hp) as H.
  rewrite app_nil_r in H. rewrite H.
  rewrite skipn_all2 by lia. rewrite app_nil_r. reflexivity.
Qed.

(** Reading a four-byte length field that [binary.Write] has written. *)
Lemma read_length_field (n : Z) (rest buf : list byte) :
  0 <= n < 2 ^ 32 ->
  exists buf1,
    Reader_Read (putBigEndian 4 n ++ rest) buf 4 = Some (buf1, rest)
    /\ bigEndian (firstn 4 buf1) = n.
Proof.
  intros Hn.
  assert (H4 : length (putBigEndian 4 n) = 4%nat) by apply length_putBigEndian.
  assert (Hne : putBigEndian 4 n <> [])
    by (intros E; rewrite E in H4; discriminate).
  pose proof (Reader_Read_prefix (putBigEndian 4 n) rest buf Hne) as H.
  rewrite H4 in H. eexists. split; [exact H|].
  pose proof (firstn_prefix (putBigEndian 4 n) (skipn 4 buf)) as F.
  rewrite H4 in F. rewrite F, bigEndian_putBigEndian.
  apply Z.mod_small. exact Hn.
Qed.

(** The handshake frame is read back as it was written. *)
Lemma readFrame_successFrame (c : Conn) (sid : list byte) :
  Z.of_nat (length sid) <= subprotoMaxFrameSize ->
  readFrame c (Message (successFrame sid))
  = match sid with
    | [] => (Some io_EOF, set_sessionID [] c)
    | _ :: _ => (None, set_connected true (set_sessionID sid (set_sessionID
                         (make (Z.of_nat (length sid))) c)))
    end.
Proof.
  intros Hlen. unfold subprotoMaxFrameSize in Hlen.
  unfold successFrame.
  remember (Z.of_nat (length sid)) as n eqn:En.
  change (putBigEndian 2 subprotoTagSuccess) with [x00; x01]%byte.
  unfold readFrame.
  change (Reader_Read ([x00; x01]%byte ++ putBigEndian 4 n ++ sid) (make 8) 2)
    with (Some (x00 :: x01 :: skipn 2 (make 8), putBigEndian 4 n ++ sid)).
  cbv beta iota.
  change (bigEndian (firstn 2 (x00 :: x01 :: skipn 2 (make 8)))
          =? subprotoTagSuccess) with true.
  cbv iota. unfold readSuccessFrame.
  destruct (read_length_field n sid (x00 :: x01 :: skipn 2 (make 8)))
    as (buf1 & -> & ->); [lia|].
  replace (n >? subprotoMaxFrameSize) with false
    by (symmetry; rewrite Z.gtb_ltb; apply Z.ltb_ge;
        unfold subprotoMaxFrameSize; lia).
  cbn [sessionID set_sessionID].
  destruct sid as [|b sid'].
  - subst n. reflexivity.
  - replace (Z.to_nat n) with (length (b :: sid')) by lia.
    rewrite Reader_Read_whole;
      [reflexivity | discriminate | rewrite length_make; lia].
Qed.

(** C2, as amended.  A frame that is not a Success frame (Data, Ack, an
    unknown tag, a transport error) leaves the session identifier as it
    was; a further Success frame whose identifier is at most 16384 bytes
    long replaces the session identifier by its own. *)
Theorem session_id_follows_success_frames
  (c : Conn) (ev : recvEvent) (sid : list byte) :
  ((forall m, ev = Message m -> frameTag m <> Some subprotoTagSuccess) ->
   SessionID (snd (readFrame c ev)) = SessionID c)
  /\ (Z.of_nat (length sid) <= subprotoMaxFrameSize ->
      SessionID (snd (readFrame c (Message (successFrame sid)))) = sid).
Proof.
  split.
  - intros H. destruct ev as [m| |]; [|reflexivity|reflexivity].
    specialize (H m eq_refl). unfold frameTag in H. unfold readFrame.
    destruct (Reader_Read m (make 8) 2) as [[buf r]|]; [|reflexivity].
    destruct (bigEndian (firstn 2 buf) =? subprotoTagSuccess) eqn:E.
    + apply Z.eqb_eq in E. exfalso. apply H. f_equal. exact E.
    + unfold SessionID, readAckFrame, readDataFrame, copyToRecv, writeAck.
      break_match; reflexivity.
  - intros Hlen. rewrite readFrame_successFrame by exact Hlen.
    destruct sid; reflexivity.
Qed.

Lemma session_id_follows_success_frames_witness :
  SessionID (snd (readFrame established (Message (dataFrame xyz)))) = abc
  /\ SessionID (snd (readFrame established (Message (successFrame xyz)))) = xyz.
Proof.
  pose proof (session_id_follows_success_frames established
                (Message (dataFrame xyz)) xyz) as [H1 H2].
  split.
  - apply H1. intros m E. injection E as <-. discriminate.
  - apply H2. vm_compute. discriminate.
Defined.

(** ** Acknowledgements *)

Lemma readDataFrame_fields (c : Conn) (buf : list byte) (r : Reader) :
  let c1 := snd (readDataFrame c buf r) in
  wsClosed c1 = wsClosed c /\ wsSent c1 = wsSent c
  /\ recvNbAcked c1 = recvNbAcked c /\ sendNbAcked c1 = sendNbAcked c
  /\ (recvNbUnacked c1 = recvNbUnacked c
      \/ exists len, 0 <= len <= subprotoMaxFrameSize
                     /\ recvNbUnacked c1 = add64 (recvNbUnacked c) len).
Proof.
  unfold readDataFrame.
  destruct (Reader_Read r buf 4) as [[buf1 r1]|];
    [|cbn; repeat split; auto].
  pose proof (bigEndian_range (firstn 4 buf1)) as [Hlo _].
  destruct (bigEndian (firstn 4 buf1) >? subprotoMaxFrameSize) eqn:E;
    [cbn; repeat split; auto|].
  rewrite Z.gtb_ltb in E. apply Z.ltb_ge in E.
  unfold copyToRecv. break_match; cbn; repeat split; auto; right; eauto.
Qed.

Lemma sub64_exact (u a : Z) : 0 <= a <= u -> u < 2 ^ 64 -> sub64 u a = u - a.
Proof. intros. unfold sub64, uint64. apply Z.mod_small. lia. Qed.

(** The Ack frame is read back as it was written. *)
Lemma readFrame_ackFrame (c : Conn) (v : Z) :
  connected c = true -> 0 <= v < 2 ^ 64 ->
  frameTag (ackFrame v) = Some subprotoTagAck
  /\ bigEndian (skipn 2 (ackFrame v)) = v
  /\ readFrame c (Message (ackFrame v)) = (None, set_sendNbAcked v c).
Proof.
  intros Hc Hv. unfold ackFrame.
  change (putBigEndian 2 subprotoTagAck) with [x00; x07]%byte.
  assert (H8 : length (putBigEndian 8 v) = 8%nat) by apply length_putBigEndian.
  assert (Hne : putBigEndian 8 v <> [])
    by (intros E; rewrite E in H8; discriminate).
  assert (Hb : bigEndian (putBigEndian 8 v) = v).
  { rewrite bigEndian_putBigEndian. apply Z.mod_small. exact Hv. }
  split; [reflexivity|]. split; [exact Hb|].
  unfold readFrame.
  change (Reader_Read ([x00; x07]%byte ++ putBigEndian 8 v) (make 8) 2)
    with (Some (x00 :: x07 :: skipn 2 (make 8), putBigEndian 8 v)).
  cbv beta iota.
  change (firstn 2 (x00 :: x07 :: skipn 2 (make 8))) with [x00; x07]%byte.
  change (bigEndian [x00; x07]%byte) with subprotoTagAck.
  change (subprotoTagAck =? subprotoTagSuccess) with false.
  change (subprotoTagAck =? subprotoTagAck) with true.
  rewrite Hc. cbn [negb]. cbv iota. unfold readAckFrame.
  pose proof (Reader_Read_whole (putBigEndian 8 v)
                (x00 :: x07 :: skipn 2 (make 8)) Hne) as H.
  rewrite H8 in H. rewrite H by reflexivity.
  rewrite firstn_all2 by (rewrite H8; apply Nat.le_refl).
  rewrite Hb. reflexivity.
Qed.

(** C5.  On an established connection whose transport accepts a writer,
    after a Data frame has been processed: when receive-unacknowledged
    minus receive-acknowledged (the 64-bit difference the code computes,
    which is the plain difference whenever acknowledged does not exceed
    unacknowledged) is strictly above 2*16384, one Ack frame carrying the
    current receive-unacknowledged value is sent and receive-acknowledged
    becomes that value; otherwise nothing is sent and receive-acknowledged
    stays. *)
Theorem ack_emission_rule (c : Conn) (m : list byte) :
  connected c = true ->
  wsClosed c = false ->
  frameTag m = Some subprotoTagData ->
  let c' := snd (readFrame c (Message m)) in
  let u := recvNbUnacked c' in
  (sub64 u (recvNbAcked c) > 2 * subprotoMaxFrameSize ->
   wsSent c' = wsSent c ++ [ackFrame u] /\ recvNbAcked c' = u)
  /\ (sub64 u (recvNbAcked c) <= 2 * subprotoMaxFrameSize ->
      wsSent c' = wsSent c /\ recvNbAcked c' = recvNbAcked c)
  /\ (0 <= recvNbAcked c <= u -> u < 2 ^ 64 ->
      sub64 u (recvNbAcked c) = u - recvNbAcked c)
  /\ (0 <= u < 2 ^ 64 ->
      frameTag (ackFrame u) = Some subprotoTagAck
      /\ bigEndian (skipn 2 (ackFrame u)) = u).
Proof.
  intros Hc Hw Ht c' u.
  assert (Hshape :
    exists c1, wsClosed c1 = false /\ wsSent c1 = wsSent c
      /\ recvNbAcked c1 = recvNbAcked c
      /\ c' = if sub64 (recvNbUnacked c1) (recvNbAcked c1)
                   >? 2 * subprotoMaxFrameSize
              then set_recvNbAcked (recvNbUnacked c1)
                     (set_wsSent (wsSent c1 ++ [ackFrame (recvNbUnacked c1)]) c1)
              else c1).
  { unfold c', readFrame. unfold frameTag in Ht.
    destruct (Reader_Read m (make 8) 2) as [[buf r]|]; [|discriminate].
    assert (E : bigEndian (firstn 2 buf) = subprotoTagData) by congruence.
    rewrite E, Hc.
    change (subprotoTagData =? subprotoTagSuccess) with false.
    change (subprotoTagData =? subprotoTagAck) with false.
    change (subprotoTagData =? subprotoTagData) with true.
    cbn [negb]. cbv iota.
    pose proof (readDataFrame_fields c buf r) as (F1 & F2 & F3 & _).
    destruct (readDataFrame c buf r) as [err c1]. cbn [snd] in F1, F2, F3.
    exists c1. split; [congruence|]. split; [exact F2|]. split; [exact F3|].
    destruct (sub64 (recvNbUnacked c1) (recvNbAcked c1)
                >? 2 * subprotoMaxFrameSize); [|reflexivity].
    unfold writeAck. rewrite F1, Hw. reflexivity. }
  destruct Hshape as (c1 & W1 & W2 & W3 & Hc').
  assert (Hu : u = recvNbUnacked c1).
  { unfold u. rewrite Hc'. destruct (_ >? _); reflexivity. }
  rewrite Hu. rewrite <- W3.
  split; [|split; [|split]].
  - intros Hgt. rewrite Hc'. replace (_ >? _) with true
      by (symmetry; apply Z.gtb_lt; lia).
    cbn. rewrite W2. auto.
  - intros Hle. rewrite Hc'. replace (_ >? _) with false
      by (symmetry; rewrite Z.gtb_ltb; apply Z.ltb_ge; lia).
    auto.
  - intros. apply sub64_exact; assumption.
  - intros Hr. split; [reflexivity|].
    change (skipn 2 (ackFrame (recvNbUnacked c1)))
      with (putBigEndian 8 (recvNbUnacked c1)).
    rewrite bigEndian_putBigEndian. apply Z.mod_small. exact Hr.
Qed.

Lemma ack_emission_rule_witness :
  let m := dataFrame (repeat "x"%byte (Z.to_nat subprotoMaxFrameSize)) in
  let c2 := snd (read established [Message m; Message m]) in
  let c3 := snd (readFrame c2 (Message m)) in
  wsSent c2 = [] /\ recvNbAcked c2 = 0
  /\ wsSent c3 = [ackFrame 49152] /\ recvNbAcked c3 = 49152.
Proof.
  intros m c2 c3.
  assert (H2 : wsSent c2 = [] /\ recvNbAcked c2 = 0
               /\ recvNbUnacked c2 = 32768 /\ connected c2 = true
               /\ wsClosed c2 = false)
    by (vm_compute; auto).
  destruct H2 as (S2 & A2 & U2 & C2 & W2).
  assert (U3 : recvNbUnacked c3 = 49152) by (vm_compute; reflexivity).
  pose proof (ack_emission_rule c2 m C2 W2 eq_refl) as (Hgt & _).
  fold c3 in Hgt. rewrite U3, A2, S2 in Hgt.
  split; [exact S2|]. split; [exact A2|].
  apply Hgt. vm_compute. reflexivity.
Defined.

(** ** The byte counters along a run *)

Lemma add64_exact (a b : Z) : 0 <= a -> 0 <= b -> a + b < 2 ^ 64 -> add64 a b = a + b.
Proof. intros. unfold add64, uint64. apply Z.mod_small. lia. Qed.

Lemma readFrame_recv_counters (c : Conn) (ev : recvEvent) :
  0 <= recvNbAcked c <= recvNbUnacked c ->
  recvNbUnacked c + subprotoMaxFrameSize < 2 ^ 64 ->
  let c' := snd (readFrame c ev) in
  recvNbAcked c <= recvNbAcked c' <= recvNbUnacked c'
  /\ recvNbUnacked c <= recvNbUnacked c' <= recvNbUnacked c + subprotoMaxFrameSize.
Proof.
  intros Ha Hu. unfold readFrame.
  destruct ev as [m| |];
    [|cbn [snd]; unfold subprotoMaxFrameSize; lia
     |cbn [snd]; unfold subprotoMaxFrameSize; lia].
  destruct (Reader_Read m (make 8) 2) as [[buf r]|];
    [|cbn [snd]; unfold subprotoMaxFrameSize; lia].
  destruct (bigEndian (firstn 2 buf) =? subprotoTagSuccess).
  { unfold readSuccessFrame, subprotoMaxFrameSize. break_match; cbn; lia. }
  destruct (negb (connected c));
    [cbn [snd]; unfold subprotoMaxFrameSize; lia|].
  destruct (bigEndian (firstn 2 buf) =? subprotoTagAck).
  { unfold readAckFrame, subprotoMaxFrameSize. break_match; cbn; lia. }
  destruct (bigEndian (firstn 2 buf) =? subprotoTagData);
    [|cbn [snd]; unfold subprotoMaxFrameSize; lia].
  pose proof (readDataFrame_fields c buf r) as (_ & _ & F3 & _ & F5).
  destruct (readDataFrame c buf r) as [err c1]. cbn [snd] in F3, F5.
  unfold subprotoMaxFrameSize in *.
  assert (Hc1 : recvNbUnacked c <= recvNbUnacked c1 <= recvNbUnacked c + 16384).
  { destruct F5 as [->|(len & Hlen & ->)]; [lia|].
    rewrite add64_exact; lia. }
  destruct (sub64 (recvNbUnacked c1) (recvNbAcked c1) >? 2 * 16384);
    [|cbn [snd]; lia].
  unfold writeAck. destruct (wsClosed c1); cbn; lia.
Qed.

Lemma writeChunks_counters (fuel : nat) :
  forall (nb : Z) (c : Conn),
    0 <= sendNbUnacked c ->
    sendNbUnacked c + Z.max nb 0 < 2 ^ 64 ->
    let c' := snd (writeChunks fuel nb c) in
    sendNbUnacked c <= sendNbUnacked c' <= sendNbUnacked c + Z.max nb 0
    /\ recvNbAcked c' = recvNbAcked c
    /\ recvNbUnacked c' = recvNbUnacked c
    /\ sendNbCh c' = sendNbCh c.
Proof.
  induction fuel as [|fuel IH]; intros nb c Hs Hb; cbn [writeChunks].
  - destruct (nb >? 0); cbn; repeat split; try reflexivity; lia.
  - destruct (nb >? 0) eqn:Hnb; [|cbn; repeat split; try reflexivity; lia].
    apply Z.gtb_lt in Hnb.
    destruct (wsClosed c); [cbn; repeat split; try reflexivity; lia|].
    destruct (_ <? _); [cbn; repeat split; try reflexivity; lia|].
    match goal with
    | |- context [writeChunks fuel ?n ?d] =>
        specialize (IH n d); remember d as c2 eqn:E2
    end.
    assert (Hs2 : sendNbUnacked c2
                  = sendNbUnacked c + Z.min nb subprotoMaxFrameSize).
    { subst c2. cbn. unfold subprotoMaxFrameSize. apply add64_exact; lia. }
    assert (Hr2 : recvNbAcked c2 = recvNbAcked c
                  /\ recvNbUnacked c2 = recvNbUnacked c
                  /\ sendNbCh c2 = sendNbCh c)
      by (subst c2; cbn; auto).
    unfold subprotoMaxFrameSize in *.
    destruct IH as (I1 & I2 & I3 & I4); [lia|lia|].
    destruct Hr2 as (R1 & R2 & R3).
    rewrite I2, I3, I4, R1, R2, R3. repeat split; lia.
Qed.

Lemma step_counters (c : Conn) (a : action) :
  sendNbCh c = [] ->
  0 <= recvNbAcked c <= recvNbUnacked c ->
  0 <= sendNbUnacked c ->
  recvNbUnacked c + inboundBytes [a] < 2 ^ 64 ->
  sendNbUnacked c + outboundBytes [a] < 2 ^ 64 ->
  let c' := step c a in
  sendNbCh c' = []
  /\ recvNbAcked c <= recvNbAcked c' <= recvNbUnacked c'
  /\ recvNbUnacked c <= recvNbUnacked c' <= recvNbUnacked c + inboundBytes [a]
  /\ sendNbUnacked c <= sendNbUnacked c' <= sendNbUnacked c + outboundBytes [a].
Proof.
  intros Hq Ha Hs Hu Ho. destruct a as [ev|buf]; cbn [step inboundBytes outboundBytes] in *.
  - pose proof (readFrame_recv_counters c ev Ha) as H.
    pose proof (readFrame_outbound_fields c ev) as (O1 & O2 & _).
    cbv zeta in H. rewrite O1, O2. split; [exact Hq|].
    destruct H as (H1 & H2); [lia|]. lia.
  - unfold Write. destruct (sendNbChClosed c) eqn:Hcl; cbn [snd].
    + unfold writeFrame. rewrite Hq, Hcl. cbn. split; [exact Hq|lia].
    + unfold writeFrame. cbn [sendNbCh set_sendPipe set_sendNbCh].
      rewrite Hq. cbn [app].
      match goal with
      | |- context [writeChunks ?f ?n ?d] =>
          pose proof (writeChunks_counters f n d) as H
      end.
      cbn [sendNbUnacked recvNbAcked recvNbUnacked sendNbCh
           set_sendNbCh set_sendPipe] in H.
      cbv zeta in H. destruct H as (H1 & H2 & H3 & H4); [lia|lia|].
      rewrite H2, H3, H4. cbn [sendNbCh set_sendNbCh set_sendPipe].
      split; [reflexivity|lia].
Qed.

Lemma run_counters (acts : list action) :
  forall c : Conn,
    sendNbCh c = [] ->
    0 <= recvNbAcked c <= recvNbUnacked c ->
    0 <= sendNbUnacked c ->
    recvNbUnacked c + inboundBytes acts < 2 ^ 64 ->
    sendNbUnacked c + outboundBytes acts < 2 ^ 64 ->
    let c' := run c acts in
    sendNbCh c' = []
    /\ recvNbAcked c <= recvNbAcked c' <= recvNbUnacked c'
    /\ recvNbUnacked c <= recvNbUnacked c' <= recvNbUnacked c + inboundBytes acts
    /\ sendNbUnacked c <= sendNbUnacked c' <= sendNbUnacked c + outboundBytes acts.
Proof.
  induction acts as [|a acts IH]; intros c Hq Ha Hs Hu Ho.
  - cbn. split; [exact Hq|lia].
  - assert (Hi : 0 <= inboundBytes acts /\ 0 <= outboundBytes acts).
    { clear. induction acts as [|[ev|buf] acts IH]; cbn [inboundBytes outboundBytes];
        unfold subprotoMaxFrameSize; lia. }
    pose proof (step_counters c a Hq Ha Hs) as H.
    assert (Ea : inboundBytes (a :: acts) = inboundBytes [a] + inboundBytes acts
                 /\ outboundBytes (a :: acts)
                    = outboundBytes [a] + outboundBytes acts)
      by (destruct a; cbn [inboundBytes outboundBytes]; lia).
    destruct Ea as (Ei & Eo). rewrite Ei in *. rewrite Eo in *.
    cbv zeta in H. destruct H as (S1 & S2 & S3 & S4); [lia|lia|].
    specialize (IH (step c a) S1).
    cbv zeta in IH. destruct IH as (I1 & I2 & I3 & I4); [lia|lia|lia|lia|].
    change (run c (a :: acts)) with (run (step c a) acts).
    cbv zeta. repeat split; try assumption; lia.
Qed.

(** C4, the claim fails.  An Ack frame carrying 100 on a connection that
    has sent nothing puts send-acknowledged above send-unacknowledged, and a
    following Ack frame carrying 5 makes it decrease. *)
Lemma ack_breaks_send_invariant :
  let c1 := snd (readFrame established (Message (ackFrame 100))) in
  let c2 := snd (readFrame c1 (Message (ackFrame 5))) in
  fst (readFrame established (Message (ackFrame 100))) = None
  /\ sendNbUnacked c1 = 0 /\ sendNbAcked c1 = 100
  /\ ~ sendNbUnacked c1 >= sendNbAcked c1
  /\ fst (readFrame c1 (Message (ackFrame 5))) = None
  /\ sendNbAcked c2 = 5
  /\ ~ sendNbAcked c1 <= sendNbAcked c2.
Proof.
  intros c1 c2.
  assert (U1 : sendNbUnacked c1 = 0) by (vm_compute; reflexivity).
  assert (A1 : sendNbAcked c1 = 100) by (vm_compute; reflexivity).
  assert (A2 : sendNbAcked c2 = 5) by (vm_compute; reflexivity).
  rewrite U1, A1, A2.
  repeat split; try (vm_compute; reflexivity); lia.
Qed.

(** C4, as amended.  Along every run of inbound events and served writes
    that stays below the 64-bit wrap-around, receive-acknowledged,
    receive-unacknowledged and send-unacknowledged never decrease and
    receive-acknowledged never exceeds receive-unacknowledged.  An Ack frame
    sets send-acknowledged to the count it carries, whatever that is. *)
Theorem counters_without_wraparound
  (c : Conn) (acts1 acts2 : list action) (v : Z) :
  sendNbCh c = [] ->
  0 <= recvNbAcked c <= recvNbUnacked c ->
  0 <= sendNbUnacked c ->
  recvNbUnacked c + inboundBytes (acts1 ++ acts2) < 2 ^ 64 ->
  sendNbUnacked c + outboundBytes (acts1 ++ acts2) < 2 ^ 64 ->
  let c1 := run c acts1 in
  let c2 := run c1 acts2 in
  recvNbAcked c1 <= recvNbUnacked c1
  /\ recvNbAcked c2 <= recvNbUnacked c2
  /\ recvNbAcked c1 <= recvNbAcked c2
  /\ recvNbUnacked c1 <= recvNbUnacked c2
  /\ sendNbUnacked c1 <= sendNbUnacked c2
  /\ (connected c2 = true -> 0 <= v < 2 ^ 64 ->
      Sent (snd (readFrame c2 (Message (ackFrame v)))) = v).
Proof.
  intros Hq Ha Hs Hu Ho c1 c2.
  assert (Hi : forall acts, 0 <= inboundBytes acts /\ 0 <= outboundBytes acts).
  { induction acts as [|[ev|buf] acts IH]; cbn [inboundBytes outboundBytes];
      unfold subprotoMaxFrameSize; lia. }
  assert (Happ : inboundBytes (acts1 ++ acts2)
                 = inboundBytes acts1 + inboundBytes acts2
                 /\ outboundBytes (acts1 ++ acts2)
                    = outboundBytes acts1 + outboundBytes acts2).
  { clear. induction acts1 as [|[ev|buf] acts1 IH];
      cbn [app inboundBytes outboundBytes]; lia. }
  destruct Happ as (Ei & Eo). rewrite Ei in Hu. rewrite Eo in Ho.
  pose proof (Hi acts1) as (Hi1 & Ho1). pose proof (Hi acts2) as (Hi2 & Ho2).
  pose proof (run_counters acts1 c Hq Ha Hs) as R1. cbv zeta in R1.
  destruct R1 as (Q1 & A1 & U1 & S1); [lia|lia|]. fold c1 in Q1, A1, U1, S1.
  pose proof (run_counters acts2 c1 Q1) as R2. cbv zeta in R2.
  destruct R2 as (Q2 & A2 & U2 & S2); [lia|lia|lia|lia|].
  fold c2 in Q2, A2, U2, S2.
  repeat split; try lia.
  intros Hc Hv. destruct (readFrame_ackFrame c2 v Hc Hv) as (_ & _ & ->).
  reflexivity.
Qed.

Lemma counters_without_wraparound_witness :
  let acts1 := [Inbound (Message (dataFrame abc)); Outbound xyz] in
  let acts2 := [Inbound (Message (ackFrame 100))] in
  let c2 := run (run established acts1) acts2 in
  recvNbUnacked (run established acts1) <= recvNbUnacked c2
  /\ sendNbUnacked (run established acts1) <= sendNbUnacked c2
  /\ Sent (snd (readFrame c2 (Message (ackFrame 7)))) = 7.
Proof.
  intros acts1 acts2 c2.
  assert (Hq : sendNbCh established = []) by reflexivity.
  assert (Ha : 0 <= recvNbAcked established <= recvNbUnacked established)
    by (vm_compute; split; discriminate).
  assert (Hs : 0 <= sendNbUnacked established) by (vm_compute; discriminate).
  assert (Hu : recvNbUnacked established + inboundBytes (acts1 ++ acts2) < 2 ^ 64)
    by (vm_compute; reflexivity).
  assert (Ho : sendNbUnacked established + outboundBytes (acts1 ++ acts2) < 2 ^ 64)
    by (vm_compute; reflexivity).
  pose proof (counters_without_wraparound established acts1 acts2 7
                Hq Ha Hs Hu Ho) as (_ & _ & _ & H4 & H5 & H6).
  split; [exact H4|]. split; [exact H5|].
  apply H6; [reflexivity|]. split; [discriminate|reflexivity].
Defined.

(** ** Outbound chunking *)

Lemma maxFrameLen_val : Z.of_nat maxFrameLen = 16384.
Proof. reflexivity. Qed.

Lemma length_skipn_max (bs : list byte) :
  bs <> [] -> (length (skipn maxFrameLen bs) < length bs)%nat.
Proof.
  intros H. rewrite length_skipn. pose proof maxFrameLen_val.
  destruct bs; [congruence|]. cbn [length]. lia.
Qed.

Lemma chunksOf_enough (f1 : nat) :
  forall (f2 : nat) (bs : list byte),
    (length bs <= f1)%nat -> (length bs <= f2)%nat ->
    chunksOf f1 bs = chunksOf f2 bs.
Proof.
  induction f1 as [|f1 IH]; intros f2 bs H1 H2.
  - destruct bs; [|cbn in H1; lia]. destruct f2; reflexivity.
  - destruct bs as [|b bs]; [destruct f2; reflexivity|].
    destruct f2 as [|f2]; [cbn in H2; lia|].
    cbn [chunksOf]. f_equal.
    pose proof (length_skipn_max (b :: bs)) as L.
    apply IH; cbn [length] in *; (assert ((b :: bs) <> []) by discriminate);
      specialize (L ltac:(discriminate)); lia.
Qed.

Lemma chunks_nil : chunks [] = [].
Proof. reflexivity. Qed.

Lemma chunks_cons (bs : list byte) :
  bs <> [] ->
  chunks bs = firstn maxFrameLen bs :: chunks (skipn maxFrameLen bs).
Proof.
  intros H. unfold chunks at 1. destruct bs as [|b bs]; [congruence|].
  cbn [length chunksOf]. f_equal. unfold chunks.
  pose proof (length_skipn_max (b :: bs) H) as L. cbn [length] in L.
  apply chunksOf_enough; lia.
Qed.

Lemma concat_chunksOf (fuel : nat) :
  forall bs, (length bs <= fuel)%nat -> concat (chunksOf fuel bs) = bs.
Proof.
  induction fuel as [|fuel IH]; intros bs H.
  - destruct bs; [reflexivity|cbn in H; lia].
  - destruct bs as [|b bs]; [reflexivity|].
    cbn [chunksOf concat]. rewrite IH.
    + apply firstn_skipn.
    + pose proof (length_skipn_max (b :: bs) ltac:(discriminate)).
      cbn [length] in *. lia.
Qed.

Lemma concat_chunks (bs : list byte) : concat (chunks bs) = bs.
Proof. apply concat_chunksOf. apply Nat.le_refl. Qed.

Lemma Forall_chunksOf (fuel : nat) :
  forall bs,
    Forall (fun p => 0 < Z.of_nat (length p) <= subprotoMaxFrameSize)
      (chunksOf fuel bs).
Proof.
  induction fuel as [|fuel IH]; intros bs; cbn [chunksOf].
  - constructor.
  - destruct bs as [|b bs]; constructor; [|apply IH].
    rewrite length_firstn. pose proof maxFrameLen_val.
    unfold subprotoMaxFrameSize. cbn [length]. lia.
Qed.

Lemma framed_nil (c : Conn) : framed [] (sendPipe c) c = c.
Proof. destruct c. unfold framed. cbn. rewrite app_nil_r. reflexivity. Qed.

Lemma framed_app (ps1 ps2 : list (list byte)) (r1 r2 : list byte) (c : Conn) :
  framed ps2 r2 (framed ps1 r1 c) = framed (ps1 ++ ps2) r2 c.
Proof.
  destruct c. unfold framed. cbn.
  rewrite map_app, fold_left_app, app_assoc. reflexivity.
Qed.

Lemma framed_cons (p : list byte) (ps : list (list byte))
  (r1 rest : list byte) (c : Conn) :
  framed ps rest
    (set_sendNbUnacked
       (add64 (sendNbUnacked c) (Z.of_nat (length p)))
       (set_sendPipe r1 (set_wsSent (wsSent c ++ [dataFrame p]) c)))
  = framed (p :: ps) rest c.
Proof.
  destruct c. unfold framed.
  cbn [wsSent sendNbUnacked set_sendNbUnacked set_sendPipe set_wsSent
       wsClosed connected sessionID recvNbAcked recvNbUnacked recvPipe
       recvPipeClosed sendNbAcked sendNbCh sendNbChClosed sendPipe
       map fold_left].
  rewrite <- app_assoc. reflexivity.
Qed.

Lemma writeChunks_zero (fuel : nat) (c : Conn) :
  writeChunks fuel 0 c = (Returns None, c).
Proof. destruct fuel; reflexivity. Qed.

(** The loop of [writeFrame] sends the chunks of the announced bytes. *)
Lemma writeChunks_chunks (fuel : nat) :
  forall (data rest : list byte) (c : Conn),
    wsClosed c = false ->
    sendPipe c = data ++ rest ->
    Z.of_nat (length data) <= Z.of_nat fuel * subprotoMaxFrameSize ->
    writeChunks fuel (Z.of_nat (length data)) c
    = (Returns None, framed (chunks data) rest c).
Proof.
  induction fuel as [|fuel IH]; intros data rest c Hw Hp Hf.
  - destruct data; [|cbn in Hf; lia].
    cbn in Hp. subst rest. change (Z.of_nat (length (@nil byte))) with 0.
    rewrite writeChunks_zero, chunks_nil, framed_nil. reflexivity.
  - destruct data as [|b data'] eqn:Ed.
    { cbn in Hp. subst rest. change (Z.of_nat (length (@nil byte))) with 0.
      rewrite writeChunks_zero, chunks_nil, framed_nil. reflexivity. }
    rewrite <- Ed in *.
    assert (Hne : data <> []) by (subst data; discriminate).
    assert (Hpos : 0 < Z.of_nat (length data))
      by (subst data; cbn [length]; lia).
    set (nb := Z.of_nat (length data)) in *.
    set (nbLimit := Z.min nb subprotoMaxFrameSize).
    assert (Hk : Z.to_nat nbLimit = Nat.min maxFrameLen (length data)).
    { unfold nbLimit, nb, maxFrameLen, subprotoMaxFrameSize. lia. }
    assert (Hfirst : firstn (Z.to_nat nbLimit) (sendPipe c)
                     = firstn maxFrameLen data).
    { rewrite Hp, Hk. rewrite firstn_app.
      replace (Nat.min maxFrameLen (length data) - length data)%nat
        with 0%nat by lia.
      cbn [firstn]. rewrite app_nil_r.
      destruct (Nat.le_ge_cases maxFrameLen (length data)).
      - rewrite Nat.min_l by assumption. reflexivity.
      - rewrite Nat.min_r by assumption.
        rewrite firstn_all, firstn_all2 by assumption. reflexivity. }
    assert (Hskip : skipn (Z.to_nat nbLimit) (sendPipe c)
                    = skipn maxFrameLen data ++ rest).
    { rewrite Hp, Hk. rewrite skipn_app.
      replace (Nat.min maxFrameLen (length data) - length data)%nat
        with 0%nat by lia.
      cbn [skipn]. f_equal.
      destruct (Nat.le_ge_cases maxFrameLen (length data)).
      - rewrite Nat.min_l by assumption. reflexivity.
      - rewrite Nat.min_r by assumption.
        rewrite skipn_all, skipn_all2 by assumption. reflexivity. }
    assert (Hlenp : Z.of_nat (length (firstn maxFrameLen data)) = nbLimit).
    { rewrite length_firstn. unfold nbLimit, nb, maxFrameLen,
        subprotoMaxFrameSize. lia. }
    cbn [writeChunks]. fold nbLimit.
    replace (nb >? 0) with true by (symmetry; apply Z.gtb_lt; lia).
    rewrite Hw.
    replace (Z.of_nat (length (sendPipe c)) <? nbLimit) with false.
    2:{ symmetry. apply Z.ltb_ge. rewrite Hp, length_app.
        unfold nbLimit, nb. lia. }
    rewrite Hfirst, Hskip.
    replace (nb - nbLimit) with (Z.of_nat (length (skipn maxFrameLen data))).
    2:{ rewrite length_skipn. unfold nbLimit, nb, maxFrameLen,
          subprotoMaxFrameSize. lia. }
    rewrite IH with (rest := rest).
    + rewrite (chunks_cons data Hne). f_equal.
      rewrite <- Hlenp.
      rewrite <- (framed_cons (firstn maxFrameLen data)
                    (chunks (skipn maxFrameLen data))
                    (skipn maxFrameLen data ++ rest) rest c).
      reflexivity.
    + exact Hw.
    + reflexivity.
    + rewrite length_skipn. unfold nb, maxFrameLen, subprotoMaxFrameSize in *.
      lia.
Qed.

Lemma writeFrame_fuel (len : Z) :
  0 <= len ->
  len <= Z.of_nat (Z.to_nat (len / subprotoMaxFrameSize + 1))
         * subprotoMaxFrameSize.
Proof.
  intros H. unfold subprotoMaxFrameSize.
  pose proof (Z.div_mod len 16384 ltac:(lia)).
  pose proof (Z.mod_pos_bound len 16384 ltac:(lia)).
  assert (0 <= len / 16384) by (apply Z.div_pos; lia).
  rewrite Z2Nat.id by lia. lia.
Qed.

(** A [Write] on an idle connection followed by the outbound loop: the loop
    frames the chunks of the buffer and waits for the next announcement. *)
Lemma write_serves_one (c : Conn) (buf : list byte) :
  wsClosed c = false -> sendNbChClosed c = false ->
  sendNbCh c = [] -> sendPipe c = [] ->
  fst (Write c buf) = match buf with [] => Blocks | _ :: _ => Returns None end
  /\ write (snd (Write c buf)) = (Running, framed (chunks buf) [] c).
Proof.
  intros Hw Hcl Hq Hp. unfold Write. rewrite Hcl, Hq, Hp. cbn [app fst snd].
  split; [reflexivity|].
  unfold write. cbn [sendNbCh set_sendPipe set_sendNbCh length writeTurns].
  unfold writeFrame at 1. cbn [sendNbCh set_sendPipe set_sendNbCh].
  rewrite writeChunks_chunks with (rest := []).
  - unfold writeFrame.
    cbn [framed sendNbCh sendNbChClosed set_sendNbUnacked set_sendPipe
         set_wsSent set_sendNbCh].
    rewrite Hcl. f_equal.
    destruct c. cbn in Hq. subst. reflexivity.
  - exact Hw.
  - cbn. symmetry. apply app_nil_r.
  - apply writeFrame_fuel. lia.
Qed.

Lemma framed_idle (ps : list (list byte)) (c : Conn) :
  let c' := framed ps [] c in
  wsClosed c' = wsClosed c /\ sendNbChClosed c' = sendNbChClosed c
  /\ sendNbCh c' = sendNbCh c /\ sendPipe c' = []
  /\ sendNbAcked c' = sendNbAcked c
  /\ wsSent c' = wsSent c ++ map dataFrame ps
  /\ sendNbUnacked c'
     = fold_left (fun n p => add64 n (Z.of_nat (length p))) ps
         (sendNbUnacked c).
Proof. cbn. repeat split. Qed.

Lemma writtenPrefix_nonempty (bufs : list (list byte)) :
  Forall (fun buf => buf <> []) bufs -> writtenPrefix bufs = bufs.
Proof.
  induction 1 as [|buf bufs Hne _ IH]; [reflexivity|].
  destruct buf; [congruence|]. cbn [writtenPrefix]. rewrite IH. reflexivity.
Qed.

(** Sequential writes on an idle connection: the outbound loop frames the
    chunks of the buffers that get written. *)
Lemma sequentialWrites_written (bufs : list (list byte)) :
  forall c : Conn,
    wsClosed c = false -> sendNbChClosed c = false ->
    sendNbCh c = [] -> sendPipe c = [] ->
    sequentialWrites c bufs
    = (Running, framed (flat_map chunks (writtenPrefix bufs)) [] c).
Proof.
  induction bufs as [|buf bufs IH]; intros c Hw Hcl Hq Hp.
  - cbn [sequentialWrites writtenPrefix flat_map]. rewrite <- Hp at 1.
    rewrite framed_nil. reflexivity.
  - destruct (write_serves_one c buf Hw Hcl Hq Hp) as (W1 & W2).
    cbn [sequentialWrites].
    destruct (Write c buf) as [o c1]. cbn [fst snd] in W1, W2. subst o.
    destruct buf as [|b buf'].
    + rewrite W2. reflexivity.
    + rewrite W2. cbn [writtenPrefix flat_map].
      pose proof (framed_idle (chunks (b :: buf')) c)
        as (F1 & F2 & F3 & F4 & _).
      rewrite IH by congruence.
      rewrite framed_app. reflexivity.
Qed.

(** A [Write] of an empty buffer on an idle connection does not return:
    the outbound loop takes the announcement of 0, sends nothing and waits
    again, and the buffers after it are never written. *)
Lemma empty_write_blocks_the_caller (c : Conn) (bufs : list (list byte)) :
  wsClosed c = false -> sendNbChClosed c = false ->
  sendNbCh c = [] -> sendPipe c = [] ->
  fst (Write c []) = Blocks
  /\ sequentialWrites c ([] :: bufs) = (Running, c).
Proof.
  intros Hw Hcl Hq Hp. split.
  - unfold Write. rewrite Hcl. reflexivity.
  - rewrite sequentialWrites_written by assumption.
    cbn [writtenPrefix flat_map]. rewrite <- Hp at 1.
    rewrite framed_nil. reflexivity.
Qed.

Lemma sequentialWrites_chunks (bufs : list (list byte)) :
  forall c : Conn,
    wsClosed c = false -> sendNbChClosed c = false ->
    sendNbCh c = [] -> sendPipe c = [] ->
    Forall (fun buf => buf <> []) bufs ->
    sequentialWrites c bufs = (Running, framed (flat_map chunks bufs) [] c).
Proof.
  intros c Hw Hcl Hq Hp Hne.
  rewrite sequentialWrites_written by assumption.
  rewrite writtenPrefix_nonempty by exact Hne. reflexivity.
Qed.

Lemma chunks_two (buf : list byte) :
  (maxFrameLen < length buf <= 2 * maxFrameLen)%nat ->
  chunks buf = [firstn maxFrameLen buf; skipn maxFrameLen buf].
Proof.
  intros H. pose proof maxFrameLen_val.
  rewrite chunks_cons by (intros ->; cbn in H; lia).
  rewrite chunks_cons.
  2:{ intros E. apply (f_equal (@length byte)) in E.
      rewrite length_skipn in E. cbn [length] in E. lia. }
  rewrite firstn_all2 with (l := skipn maxFrameLen buf)
    by (rewrite length_skipn; lia).
  rewrite skipn_all2 with (l := skipn maxFrameLen buf)
    by (rewrite length_skipn; lia).
  reflexivity.
Qed.

Lemma dataFrame_raw (p : list byte) :
  Z.of_nat (length p) <= subprotoMaxFrameSize ->
  dataFrame p = rawDataFrame (Z.of_nat (length p)) p.
Proof.
  intros H. unfold dataFrame, rawDataFrame, uint32, subprotoMaxFrameSize in *.
  rewrite Z.mod_small by (change (2 ^ 32) with 4294967296; lia).
  reflexivity.
Qed.

(** What a Data frame holds on the wire: the tag, the length field and the
    payload. *)
Lemma rawDataFrame_decodes (n : Z) (p : list byte) :
  0 <= n < 2 ^ 32 ->
  frameTag (rawDataFrame n p) = Some subprotoTagData
  /\ bigEndian (firstn 4 (skipn 2 (rawDataFrame n p))) = n
  /\ skipn 6 (rawDataFrame n p) = p.
Proof.
  intros Hn. unfold rawDataFrame.
  change (putBigEndian 2 subprotoTagData) with [x00; x04]%byte.
  assert (H4 : length (putBigEndian 4 n) = 4%nat) by apply length_putBigEndian.
  split; [reflexivity|]. split.
  - cbn [app skipn].
    pose proof (firstn_prefix (putBigEndian 4 n) p) as F.
    rewrite H4 in F. rewrite F, bigEndian_putBigEndian.
    apply Z.mod_small. exact Hn.
  - change (skipn 6 ([x00; x04]%byte ++ putBigEndian 4 n ++ p))
      with (skipn 4 (putBigEndian 4 n ++ p)).
    rewrite skipn_app.
    rewrite skipn_all2 with (l := putBigEndian 4 n)
      by (rewrite H4; apply Nat.le_refl).
    rewrite H4. reflexivity.
Qed.

(** C8.  For sequential [Write] calls of non-empty buffers on an idle
    connection with an open transport, the outbound loop sends exactly one
    message per chunk of each buffer, buffer after buffer.  Every message is
    the tag 0x4, a length field that decodes to the number of payload bytes,
    and the payload; the payloads concatenate to the concatenation of the
    buffers in call order; each payload has between 1 and 16384 bytes;
    send-unacknowledged has grown by the total number of bytes, chunk by
    chunk; and a single buffer of 20000 bytes gives two frames with 16384
    and 3616 bytes. *)
Theorem writes_are_framed_in_order (c : Conn) (bufs : list (list byte)) :
  wsClosed c = false -> sendNbChClosed c = false ->
  sendNbCh c = [] -> sendPipe c = [] ->
  0 <= sendNbUnacked c < 2 ^ 64 ->
  Forall (fun buf => buf <> []) bufs ->
  let payloads := flat_map chunks bufs in
  exists c',
    sequentialWrites c bufs = (Running, c')
    /\ wsSent c'
       = wsSent c
           ++ map (fun p => rawDataFrame (Z.of_nat (length p)) p) payloads
    /\ Forall (fun p =>
                 let m := rawDataFrame (Z.of_nat (length p)) p in
                 frameTag m = Some subprotoTagData
                 /\ bigEndian (firstn 4 (skipn 2 m)) = Z.of_nat (length p)
                 /\ skipn 6 m = p) payloads
    /\ concat payloads = concat bufs
    /\ Forall (fun p => 0 < Z.of_nat (length p) <= subprotoMaxFrameSize)
         payloads
    /\ sendNbUnacked c'
       = (sendNbUnacked c + Z.of_nat (length (concat bufs))) mod 2 ^ 64
    /\ sendNbUnacked c'
       = fold_left (fun n p => (n + Z.of_nat (length p)) mod 2 ^ 64) payloads
           (sendNbUnacked c)
    /\ (forall buf, bufs = [buf] -> Z.of_nat (length buf) = 20000 ->
        payloads = [firstn maxFrameLen buf; skipn maxFrameLen buf]
        /\ map (fun p => Z.of_nat (length p)) payloads = [16384; 3616]).
Proof.
  intros Hw Hcl Hq Hp Hs Hne payloads.
  exists (framed payloads [] c).
  pose proof (framed_idle payloads c) as (_ & _ & _ & _ & _ & F6 & F7).
  assert (Hall : Forall (fun p => 0 < Z.of_nat (length p)
                                  <= subprotoMaxFrameSize) payloads).
  { unfold payloads. clear. induction bufs as [|buf bufs IH].
    - constructor.
    - cbn [flat_map]. apply Forall_app. split; [|exact IH].
      apply Forall_chunksOf. }
  assert (Hcat : concat payloads = concat bufs).
  { unfold payloads. clear. induction bufs as [|buf bufs IH].
    - reflexivity.
    - cbn [flat_map concat]. rewrite concat_app, concat_chunks, IH.
      reflexivity. }
  split; [apply sequentialWrites_chunks; assumption|].
  split.
  { rewrite F6. f_equal. apply map_ext_in. intros p Hin.
    rewrite Forall_forall in Hall. apply dataFrame_raw. apply Hall. exact Hin. }
  split.
  { eapply Forall_impl; [|exact Hall]. cbv beta zeta. intros p Hlen.
    apply rawDataFrame_decodes. unfold subprotoMaxFrameSize in Hlen.
    change (2 ^ 32) with 4294967296. lia. }
  split; [exact Hcat|]. split; [exact Hall|].
  split.
  { rewrite F7. clear - Hs Hcat. rewrite <- Hcat.
    generalize dependent (sendNbUnacked c). clear.
    induction payloads as [|p ps IH]; intros s0 Hs.
    - cbn. rewrite Z.add_0_r. symmetry. apply Z.mod_small. exact Hs.
    - cbn [fold_left concat]. rewrite IH
        by (unfold add64, uint64; apply Z.mod_pos_bound; reflexivity).
      unfold add64, uint64. rewrite Zplus_mod_idemp_l.
      rewrite length_app. f_equal. lia. }
  split; [exact F7|].
  intros buf -> Hlen. unfold payloads. cbn [flat_map].
  rewrite app_nil_r. pose proof maxFrameLen_val as Hm.
  rewrite chunks_two by lia. split; [reflexivity|].
  cbn [map]. rewrite length_firstn, length_skipn.
  repeat f_equal; lia.
Qed.

Lemma writes_are_framed_in_order_witness :
  let buf := repeat "x"%byte (Z.to_nat 20000) in
  exists c',
    sequentialWrites established [abc; buf] = (Running, c')
    /\ concat (flat_map chunks [abc; buf]) = concat [abc; buf]
    /\ map (fun p => Z.of_nat (length p)) (flat_map chunks [buf])
       = [16384; 3616].
Proof.
  intros buf.
  assert (Hs : 0 <= sendNbUnacked established < 2 ^ 64)
    by (vm_compute; split; [discriminate|reflexivity]).
  assert (Hn2 : Forall (fun b : list byte => b <> []) [abc; buf])
    by (repeat constructor; discriminate).
  assert (Hn1 : Forall (fun b : list byte => b <> []) [buf])
    by (repeat constructor; discriminate).
  destruct (writes_are_framed_in_order established [abc; buf]
              eq_refl eq_refl eq_refl eq_refl Hs Hn2)
    as (c' & H1 & _ & _ & H3 & _).
  destruct (writes_are_framed_in_order established [buf]
              eq_refl eq_refl eq_refl eq_refl Hs Hn1)
    as (_ & _ & _ & _ & _ & _ & _ & _ & H6).
  exists c'. split; [exact H1|]. split; [exact H3|].
  apply (H6 buf eq_refl). unfold buf. rewrite repeat_length. reflexivity.
Defined.

(** ** Sent *)

(** C3, the claim fails.  After the handshake a caller writes 20000 bytes;
    both Data frames are transmitted, send-unacknowledged is 20000 and
    [Sent] still returns 0. *)
Lemma sent_is_zero_after_transmission :
  let buf := repeat "x"%byte (Z.to_nat 20000) in
  let c := snd (sequentialWrites established [buf]) in
  fst (sequentialWrites established [buf]) = Running
  /\ map (fun m => Z.of_nat (length m)) (wsSent c) = [16390; 3622]
  /\ sendNbUnacked c = 20000
  /\ Sent c = 0
  /\ Sent c <> 20000.
Proof.
  intros buf c.
  assert (S0 : Sent c = 0) by (vm_compute; reflexivity).
  rewrite S0.
  repeat split; try (vm_compute; reflexivity). discriminate.
Qed.

(** C3, as amended.  After a caller has written 20000 bytes in one [Write]
    on an idle connection with an open transport and the outbound loop has
    transmitted the two Data frames, send-unacknowledged has advanced by
    16384 and then by 3616, and [Sent] returns what it returned before;
    [Sent] returns the count of the last Ack frame received. *)
Theorem sent_counts_acknowledged_bytes (c : Conn) (buf : list byte) (v : Z) :
  wsClosed c = false -> sendNbChClosed c = false ->
  sendNbCh c = [] -> sendPipe c = [] ->
  Z.of_nat (length buf) = 20000 ->
  exists c',
    sequentialWrites c [buf] = (Running, c')
    /\ wsSent c' = wsSent c ++ [dataFrame (firstn maxFrameLen buf);
                                dataFrame (skipn maxFrameLen buf)]
    /\ sendNbUnacked c' = add64 (add64 (sendNbUnacked c) 16384) 3616
    /\ Sent c' = Sent c
    /\ (connected c' = true -> 0 <= v < 2 ^ 64 ->
        Sent (snd (readFrame c' (Message (ackFrame v)))) = v).
Proof.
  intros Hw Hcl Hq Hp Hlen. pose proof maxFrameLen_val as Hm.
  assert (Hch : chunks buf = [firstn maxFrameLen buf; skipn maxFrameLen buf])
    by (apply chunks_two; lia).
  exists (framed (chunks buf) [] c).
  pose proof (framed_idle (chunks buf) c) as (_ & _ & _ & _ & F5 & F6 & F7).
  split.
  { rewrite sequentialWrites_chunks;
      [|assumption|assumption|assumption|assumption|].
    - cbn [flat_map]. rewrite app_nil_r. reflexivity.
    - constructor; [|constructor]. intros ->. cbn in Hlen. lia. }
  rewrite Hch in F6 at 2. rewrite Hch in F7 at 2.
  split; [exact F6|]. split.
  { rewrite F7. cbn [fold_left]. rewrite length_firstn, length_skipn.
    repeat f_equal; lia. }
  split; [exact F5|].
  intros Hc Hv. destruct (readFrame_ackFrame _ v Hc Hv) as (_ & _ & ->).
  reflexivity.
Qed.

Lemma sent_counts_acknowledged_bytes_witness :
  let buf := repeat "x"%byte (Z.to_nat 20000) in
  exists c',
    sequentialWrites established [buf] = (Running, c')
    /\ sendNbUnacked c' = add64 (add64 (sendNbUnacked established) 16384) 3616
    /\ Sent c' = Sent established.
Proof.
  intros buf.
  destruct (sent_counts_acknowledged_bytes established buf 0
              eq_refl eq_refl eq_refl eq_refl)
    as (c' & H1 & _ & H3 & H4 & _).
  - unfold buf. rewrite repeat_length. reflexivity.
  - exists c'. auto.
Defined.

(** ** The fuel of the two outbound loops is enough *)

(** The result of the loop of [writeFrame] does not depend on the fuel once
    there is one unit of it for every 16384 announced bytes. *)
Lemma writeChunks_fuel (fuel1 : nat) :
  forall (fuel2 : nat) (nb : Z) (c : Conn),
    nb <= Z.of_nat fuel1 * subprotoMaxFrameSize ->
    nb <= Z.of_nat fuel2 * subprotoMaxFrameSize ->
    writeChunks fuel1 nb c = writeChunks fuel2 nb c.
Proof.
  unfold subprotoMaxFrameSize.
  induction fuel1 as [|fuel1 IH]; intros fuel2 nb c H1 H2.
  - cbn [writeChunks]. replace (nb >? 0) with false
      by (symmetry; rewrite Z.gtb_ltb; apply Z.ltb_ge; lia).
    destruct fuel2; cbn [writeChunks];
      replace (nb >? 0) with false
        by (symmetry; rewrite Z.gtb_ltb; apply Z.ltb_ge; lia);
      reflexivity.
  - cbn [writeChunks]. destruct (nb >? 0) eqn:Hnb.
    + apply Z.gtb_lt in Hnb. destruct fuel2 as [|fuel2]; [lia|].
      cbn [writeChunks].
      replace (nb >? 0) with true by (symmetry; apply Z.gtb_lt; lia).
      destruct (wsClosed c); [reflexivity|].
      destruct (_ <? _); [reflexivity|].
      apply IH; unfold subprotoMaxFrameSize; lia.
    + destruct fuel2; cbn [writeChunks]; rewrite Hnb; reflexivity.
Qed.

Lemma writeChunks_sendNbCh (fuel : nat) :
  forall (nb : Z) (c : Conn),
    sendNbCh (snd (writeChunks fuel nb c)) = sendNbCh c.
Proof.
  induction fuel as [|fuel IH]; intros nb c; cbn [writeChunks].
  - destruct (nb >? 0); reflexivity.
  - destruct (nb >? 0); [|reflexivity].
    destruct (wsClosed c); [reflexivity|].
    destruct (_ <? _); [reflexivity|].
    rewrite IH. reflexivity.
Qed.

(** A turn of the outbound loop that returns without an error has taken one
    announcement from the channel. *)
Lemma writeFrame_takes_one (c c1 : Conn) :
  writeFrame c = (Returns None, c1) ->
  S (length (sendNbCh c1)) = length (sendNbCh c).
Proof.
  unfold writeFrame. destruct (sendNbCh c) as [|nb rest] eqn:E.
  - destruct (sendNbChClosed c); discriminate.
  - intros H.
    pose proof (writeChunks_sendNbCh
                  (Z.to_nat (nb / subprotoMaxFrameSize + 1)) nb
                  (set_sendNbCh rest c)) as Hq.
    rewrite H in Hq. cbn in Hq. rewrite Hq. reflexivity.
Qed.

(** The outbound loop has waited or exited before its fuel is used up. *)
Lemma writeTurns_fuel (fuel1 : nat) :
  forall (fuel2 : nat) (c : Conn),
    (length (sendNbCh c) < fuel1)%nat -> (length (sendNbCh c) < fuel2)%nat ->
    writeTurns fuel1 c = writeTurns fuel2 c.
Proof.
  induction fuel1 as [|fuel1 IH]; intros fuel2 c H1 H2; [lia|].
  destruct fuel2 as [|fuel2]; [lia|].
  cbn [writeTurns].
  destruct (writeFrame c) as [[[e|]| |msg] c1] eqn:E; try reflexivity.
  apply writeFrame_takes_one in E. apply IH; lia.
Qed.

Lemma write_fuel (fuel : nat) (c : Conn) :
  (length (sendNbCh c) < fuel)%nat -> writeTurns fuel c = write c.
Proof. intros H. unfold write. apply writeTurns_fuel; lia. Qed.

(** ** Further properties: the inbound side *)

(** What [readFrame] does with a Data frame on an established connection
    whose receive conduit is open: it delivers the payload bytes that are
    there, at most as many as the length field says, and counts the length
    field. *)
Lemma readFrame_rawDataFrame (c : Conn) (len : Z) (payload : list byte) :
  connected c = true -> recvPipeClosed c = false ->
  0 <= len <= subprotoMaxFrameSize ->
  let c1 := delivered len (firstn (Z.to_nat len) payload) c in
  readFrame c (Message (rawDataFrame len payload))
  = if window c1 >? 2 * subprotoMaxFrameSize
    then match writeAck c1 (recvNbUnacked c1) with
         | (Some e, c2) => (Some e, c2)
         | (None, c2) => (None, set_recvNbAcked (recvNbUnacked c2) c2)
         end
    else (None, c1).
Proof.
  intros Hc Hp Hlen c1. unfold subprotoMaxFrameSize in Hlen.
  unfold rawDataFrame.
  change (putBigEndian 2 subprotoTagData) with [x00; x04]%byte.
  unfold readFrame.
  change (Reader_Read ([x00; x04]%byte ++ putBigEndian 4 len ++ payload)
            (make 8) 2)
    with (Some (x00 :: x04 :: skipn 2 (make 8), putBigEndian 4 len ++ payload)).
  cbv beta iota.
  change (firstn 2 (x00 :: x04 :: skipn 2 (make 8))) with [x00; x04]%byte.
  change (bigEndian [x00; x04]%byte) with subprotoTagData.
  change (subprotoTagData =? subprotoTagSuccess) with false.
  change (subprotoTagData =? subprotoTagAck) with false.
  change (subprotoTagData =? subprotoTagData) with true.
  rewrite Hc. cbn [negb]. cbv iota.
  assert (Hd : readDataFrame c (x00 :: x04 :: skipn 2 (make 8))
                 (putBigEndian 4 len ++ payload) = (None, c1)).
  { unfold readDataFrame.
    destruct (read_length_field len payload (x00 :: x04 :: skipn 2 (make 8)))
      as (buf1 & -> & ->); [lia|].
    replace (len >? subprotoMaxFrameSize) with false
      by (symmetry; rewrite Z.gtb_ltb; apply Z.ltb_ge;
          unfold subprotoMaxFrameSize; lia).
    unfold copyToRecv, c1, delivered.
    destruct (firstn (Z.to_nat len) payload) as [|b data].
    - destruct c. cbn. rewrite app_nil_r. reflexivity.
    - rewrite Hp. reflexivity. }
  rewrite Hd. reflexivity.
Qed.

Lemma readFrame_rawDataFrame_open (c : Conn) (len : Z) (payload : list byte) :
  connected c = true -> recvPipeClosed c = false -> wsClosed c = false ->
  0 <= len <= subprotoMaxFrameSize ->
  readFrame c (Message (rawDataFrame len payload))
  = (None, ackIfDue (delivered len (firstn (Z.to_nat len) payload) c)).
Proof.
  intros Hc Hp Hw Hlen.
  rewrite readFrame_rawDataFrame by assumption. cbv zeta.
  unfold ackIfDue. destruct (_ >? _); [|reflexivity].
  unfold writeAck. cbn [wsClosed delivered set_recvNbUnacked set_recvPipe].
  rewrite Hw. reflexivity.
Qed.

Lemma ackIfDue_fields (c : Conn) :
  let c' := ackIfDue c in
  connected c' = connected c /\ wsClosed c' = wsClosed c
  /\ recvPipeClosed c' = recvPipeClosed c /\ recvPipe c' = recvPipe c
  /\ recvNbUnacked c' = recvNbUnacked c /\ sessionID c' = sessionID c
  /\ sendNbAcked c' = sendNbAcked c /\ sendNbUnacked c' = sendNbUnacked c.
Proof. unfold ackIfDue. destruct (_ >? _); cbn; repeat split. Qed.

(** X1.  A truncated Data frame.  When the message ends before the payload
    has the length its length field announces, [readFrame] reports no
    error, delivers the bytes that are there and still adds the announced
    length to receive-unacknowledged. *)
Theorem truncated_data_frame_counts_announced_length
  (c : Conn) (len : Z) (payload : list byte) :
  connected c = true -> recvPipeClosed c = false -> wsClosed c = false ->
  Z.of_nat (length payload) < len <= subprotoMaxFrameSize ->
  let r := readFrame c (Message (rawDataFrame len payload)) in
  fst r = None
  /\ recvPipe (snd r) = recvPipe c ++ payload
  /\ recvNbUnacked (snd r) = add64 (recvNbUnacked c) len.
Proof.
  intros Hc Hp Hw Hlen r. unfold r.
  rewrite readFrame_rawDataFrame_open by (try assumption; lia).
  pose proof (ackIfDue_fields
                (delivered len (firstn (Z.to_nat len) payload) c))
    as (_ & _ & _ & F4 & F5 & _).
  cbn [fst snd]. rewrite F4, F5. cbn.
  rewrite firstn_all2 by lia. auto.
Qed.

Lemma truncated_data_frame_counts_announced_length_witness :
  let r := readFrame established (Message (rawDataFrame 5 abc)) in
  fst r = None /\ recvPipe (snd r) = abc /\ recvNbUnacked (snd r) = 5.
Proof.
  pose proof (truncated_data_frame_counts_announced_length established 5 abc
                eq_refl eq_refl eq_refl) as H.
  cbv zeta in H. destruct H as (H1 & H2 & H3).
  - vm_compute. split; [reflexivity|discriminate].
  - repeat split; assumption.
Defined.

Lemma read_data_frames (ps : list (list byte)) :
  forall c : Conn,
    connected c = true -> recvPipeClosed c = false -> wsClosed c = false ->
    Forall (fun p => Z.of_nat (length p) <= subprotoMaxFrameSize) ps ->
    let r := read c (map (fun p => Message (dataFrame p)) ps) in
    fst r = Running
    /\ recvPipe (snd r) = recvPipe c ++ concat ps
    /\ recvNbUnacked (snd r)
       = fold_left (fun n p => add64 n (Z.of_nat (length p))) ps
           (recvNbUnacked c)
    /\ sessionID (snd r) = sessionID c
    /\ sendNbAcked (snd r) = sendNbAcked c
    /\ sendNbUnacked (snd r) = sendNbUnacked c.
Proof.
  induction ps as [|p ps IH]; intros c Hc Hp Hw Hall.
  - cbn. rewrite app_nil_r. repeat split.
  - inversion Hall as [|p' ps' Hlen Hall']; subst.
    cbn [map read].
    rewrite dataFrame_raw by exact Hlen.
    rewrite readFrame_rawDataFrame_open by (try assumption; lia).
    rewrite Nat2Z.id, firstn_all.
    set (c1 := ackIfDue (delivered (Z.of_nat (length p)) p c)).
    pose proof (ackIfDue_fields (delivered (Z.of_nat (length p)) p c))
      as (G1 & G2 & G3 & G4 & G5 & G6 & G7 & G8).
    fold c1 in G1, G2, G3, G4, G5, G6, G7, G8.
    cbn in G1, G2, G3, G4, G5, G6, G7, G8.
    specialize (IH c1 ltac:(congruence) ltac:(congruence) ltac:(congruence)
                  Hall').
    cbv zeta in IH. destruct IH as (I1 & I2 & I3 & I4 & I5 & I6).
    cbv zeta. rewrite I2, I3, I4, I5, I6, G4, G5, G6, G7, G8.
    cbn [concat fold_left]. rewrite <- app_assoc. repeat split. exact I1.
Qed.

(** X2.  In-order delivery.  On an established connection with an open
    transport and an open receive conduit, the inbound loop that meets the
    Data frames of the payloads [ps] (each of at most 16384 bytes) keeps
    running, has appended the payloads to the receive conduit in the order
    of arrival and has advanced receive-unacknowledged by each length. *)
Theorem data_frames_delivered_in_order (c : Conn) (ps : list (list byte)) :
  connected c = true -> recvPipeClosed c = false -> wsClosed c = false ->
  Forall (fun p => Z.of_nat (length p) <= subprotoMaxFrameSize) ps ->
  let r := read c (map (fun p => Message (dataFrame p)) ps) in
  fst r = Running
  /\ recvPipe (snd r) = recvPipe c ++ concat ps
  /\ recvNbUnacked (snd r)
     = fold_left (fun n p => add64 n (Z.of_nat (length p))) ps
         (recvNbUnacked c)
  /\ SessionID (snd r) = SessionID c.
Proof.
  intros Hc Hp Hw Hall r.
  pose proof (read_data_frames ps c Hc Hp Hw Hall) as H. cbv zeta in H.
  destruct H as (H1 & H2 & H3 & H4 & _). repeat split; assumption.
Qed.

Lemma data_frames_delivered_in_order_witness :
  let r := read established [Message (dataFrame abc); Message (dataFrame xyz)] in
  fst r = Running /\ recvPipe (snd r) = abc ++ xyz.
Proof.
  pose proof (data_frames_delivered_in_order established [abc; xyz]
                eq_refl eq_refl eq_refl) as H.
  cbv zeta in H. destruct H as (H1 & H2 & _).
  - repeat constructor; vm_compute; discriminate.
  - split; [exact H1|exact H2].
Defined.

(** X3.  Loop-back.  What sequential callers write in non-empty buffers on
    one connection and its outbound loop puts on the wire, the inbound loop
    of an established connection hands to its receive conduit unchanged and
    in order. *)
Theorem written_bytes_arrive_unchanged
  (a b : Conn) (bufs : list (list byte)) :
  wsClosed a = false -> sendNbChClosed a = false ->
  sendNbCh a = [] -> sendPipe a = [] -> wsSent a = [] ->
  Forall (fun buf => buf <> []) bufs ->
  connected b = true -> recvPipeClosed b = false -> wsClosed b = false ->
  let wire := wsSent (snd (sequentialWrites a bufs)) in
  let r := read b (map Message wire) in
  fst r = Running /\ recvPipe (snd r) = recvPipe b ++ concat bufs.
Proof.
  intros Hw Hcl Hq Hp Hs Hne Hc Hrp Hwb wire r.
  assert (Ewire : wire = map dataFrame (flat_map chunks bufs)).
  { unfold wire. rewrite sequentialWrites_chunks by assumption.
    cbn [snd]. pose proof (framed_idle (flat_map chunks bufs) a)
      as (_ & _ & _ & _ & _ & F6 & _).
    rewrite F6, Hs. reflexivity. }
  assert (Hall : Forall (fun p => Z.of_nat (length p) <= subprotoMaxFrameSize)
                   (flat_map chunks bufs)).
  { clear. induction bufs as [|buf bufs IH]; [constructor|].
    cbn [flat_map]. apply Forall_app. split; [|exact IH].
    eapply Forall_impl; [|apply Forall_chunksOf].
    cbv beta. intros p Hpos. lia. }
  assert (Hcat : concat (flat_map chunks bufs) = concat bufs).
  { clear. induction bufs as [|buf bufs IH]; [reflexivity|].
    cbn [flat_map concat]. rewrite concat_app, concat_chunks, IH.
    reflexivity. }
  pose proof (read_data_frames (flat_map chunks bufs) b Hc Hrp Hwb Hall) as H.
  cbv zeta in H. rewrite <- map_map, <- Ewire in H. fold r in H.
  destruct H as (H1 & H2 & _). rewrite Hcat in H2. auto.
Qed.

Lemma written_bytes_arrive_unchanged_witness :
  let buf := repeat "x"%byte (Z.to_nat 20000) in
  let wire := wsSent (snd (sequentialWrites established [abc; buf])) in
  recvPipe (snd (read established (map Message wire))) = abc ++ buf.
Proof.
  intros buf wire.
  assert (Hne : Forall (fun b : list byte => b <> []) [abc; buf])
    by (repeat constructor; discriminate).
  pose proof (written_bytes_arrive_unchanged established established
                [abc; buf] eq_refl eq_refl eq_refl eq_refl eq_refl Hne
                eq_refl eq_refl eq_refl) as H.
  cbv zeta in H. destruct H as (_ & H2).
  fold wire in H2. rewrite H2. cbn [recvPipe established concat app].
  cbn [concat]. rewrite app_nil_r. reflexivity.
Defined.

Lemma sub64_diag (u : Z) : sub64 u u = 0.
Proof. unfold sub64, uint64. rewrite Z.sub_diag. reflexivity. Qed.

Lemma readFrame_window (c : Conn) (ev : recvEvent) :
  wsClosed c = false ->
  window c <= 2 * subprotoMaxFrameSize ->
  let c' := snd (readFrame c ev) in
  wsClosed c' = false /\ window c' <= 2 * subprotoMaxFrameSize.
Proof.
  intros Hw Hwin. unfold readFrame.
  destruct ev as [m| |]; [|cbn [snd]; auto|cbn [snd]; auto].
  destruct (Reader_Read m (make 8) 2) as [[buf r]|]; [|cbn [snd]; auto].
  destruct (bigEndian (firstn 2 buf) =? subprotoTagSuccess).
  { unfold readSuccessFrame. unfold window in *.
    break_match; cbn; auto. }
  destruct (negb (connected c)); [cbn [snd]; auto|].
  destruct (bigEndian (firstn 2 buf) =? subprotoTagAck).
  { unfold readAckFrame. unfold window in *. break_match; cbn; auto. }
  destruct (bigEndian (firstn 2 buf) =? subprotoTagData);
    [|cbn [snd]; auto].
  pose proof (readDataFrame_fields c buf r) as (F1 & _).
  destruct (readDataFrame c buf r) as [err c1]. cbn [snd] in F1.
  fold (window c1).
  destruct (window c1 >? 2 * subprotoMaxFrameSize) eqn:E.
  - unfold writeAck. rewrite F1, Hw. cbn. split; [congruence|].
    unfold window. cbn. rewrite sub64_diag.
    unfold subprotoMaxFrameSize. lia.
  - cbn [snd]. split; [congruence|].
    rewrite Z.gtb_ltb in E. apply Z.ltb_ge in E. exact E.
Qed.

(** X4.  The receive window.  While the transport is open, the inbound
    loop never leaves more than 2*16384 bytes unacknowledged: if the 64-bit
    difference receive-unacknowledged minus receive-acknowledged is at most
    2*16384 before a run of inbound events, it is so after it. *)
Theorem receive_window_bounded (c : Conn) (evs : list recvEvent) :
  wsClosed c = false ->
  window c <= 2 * subprotoMaxFrameSize ->
  window (snd (read c evs)) <= 2 * subprotoMaxFrameSize.
Proof.
  revert c. induction evs as [|ev evs IH]; intros c Hw Hwin; cbn [read].
  - exact Hwin.
  - pose proof (readFrame_window c ev Hw Hwin) as H. cbv zeta in H.
    destruct (readFrame c ev) as [[e|] c1]; cbn [snd] in *.
    + apply H.
    + apply IH; apply H.
Qed.

Lemma receive_window_bounded_witness :
  let m := dataFrame (repeat "x"%byte (Z.to_nat subprotoMaxFrameSize)) in
  window (snd (read established [Message m; Message m; Message m]))
  <= 2 * subprotoMaxFrameSize.
Proof.
  intros m.
  apply (receive_window_bounded established [Message m; Message m; Message m]).
  - reflexivity.
  - vm_compute. discriminate.
Defined.

Lemma readFrame_sent_received (c : Conn) (ev : recvEvent) :
  let c' := snd (readFrame c ev) in
  (wsSent c' = wsSent c /\ Received c' = Received c)
  \/ (wsSent c' = wsSent c ++ [ackFrame (Received c')]
      /\ Received c' = recvNbUnacked c').
Proof.
  unfold Received, readFrame.
  destruct ev as [m| |]; [|cbn [snd]; auto|cbn [snd]; auto].
  destruct (Reader_Read m (make 8) 2) as [[buf r]|]; [|cbn [snd]; auto].
  destruct (bigEndian (firstn 2 buf) =? subprotoTagSuccess).
  { unfold readSuccessFrame. break_match; cbn; auto. }
  destruct (negb (connected c)); [cbn [snd]; auto|].
  destruct (bigEndian (firstn 2 buf) =? subprotoTagAck).
  { unfold readAckFrame. break_match; cbn; auto. }
  destruct (bigEndian (firstn 2 buf) =? subprotoTagData);
    [|cbn [snd]; auto].
  pose proof (readDataFrame_fields c buf r) as (_ & F2 & F3 & _).
  destruct (readDataFrame c buf r) as [err c1]. cbn [snd] in F2, F3.
  destruct (_ >? _); [|cbn [snd]; auto].
  unfold writeAck. destruct (wsClosed c1); cbn; [auto|].
  right. rewrite F2. auto.
Qed.

(** X5.  The inbound side sends nothing but acknowledgements.  Whatever
    event [readFrame] meets, either it sends nothing and [Received] keeps
    its value, or it sends exactly one Ack frame, which carries the value
    [Received] returns from then on, the current receive-unacknowledged. *)
Theorem inbound_sends_only_acks (c : Conn) (ev : recvEvent) :
  let c' := snd (readFrame c ev) in
  (wsSent c' = wsSent c /\ Received c' = Received c)
  \/ (wsSent c' = wsSent c ++ [ackFrame (Received c')]
      /\ Received c' = recvNbUnacked c').
Proof. exact (readFrame_sent_received c ev). Qed.

(** X6.  The inbound loop ends at the first error: once it has exited,
    events that follow are not processed. *)
Theorem inbound_loop_stops_at_first_error
  (c : Conn) (evs more : list recvEvent) :
  fst (read c evs) = Exited ->
  read c (evs ++ more) = read c evs.
Proof.
  revert c. induction evs as [|ev evs IH]; intros c H; cbn [read app] in *.
  - discriminate.
  - destruct (readFrame c ev) as [[e|] c1]; [reflexivity|].
    apply IH. exact H.
Qed.

Lemma inbound_loop_stops_at_first_error_witness :
  read established ([Message (dataFrame abc); CloseError 1000 "bye"]
                      ++ [Message (dataFrame xyz)])
  = read established [Message (dataFrame abc); CloseError 1000 "bye"].
Proof.
  apply (inbound_loop_stops_at_first_error established
           [Message (dataFrame abc); CloseError 1000 "bye"]
           [Message (dataFrame xyz)]).
  reflexivity.
Defined.

(** X7.  Only Data frames reach the receive side.  An event that is not a
    message with tag 0x4 delivers nothing to the receive conduit, leaves
    both receive counters as they were and sends nothing. *)
Theorem only_data_frames_touch_receive_side (c : Conn) (ev : recvEvent) :
  (forall m, ev = Message m -> frameTag m <> Some subprotoTagData) ->
  let c' := snd (readFrame c ev) in
  recvPipe c' = recvPipe c
  /\ recvNbUnacked c' = recvNbUnacked c
  /\ Received c' = Received c
  /\ wsSent c' = wsSent c.
Proof.
  intros H. unfold Received, readFrame.
  destruct ev as [m| |]; [|cbn [snd]; auto|cbn [snd]; auto].
  specialize (H m eq_refl). unfold frameTag in H.
  destruct (Reader_Read m (make 8) 2) as [[buf r]|]; [|cbn [snd]; auto].
  destruct (bigEndian (firstn 2 buf) =? subprotoTagSuccess).
  { unfold readSuccessFrame. break_match; cbn; auto. }
  destruct (negb (connected c)); [cbn [snd]; auto|].
  destruct (bigEndian (firstn 2 buf) =? subprotoTagAck).
  { unfold readAckFrame. break_match; cbn; auto. }
  destruct (bigEndian (firstn 2 buf) =? subprotoTagData) eqn:E;
    [|cbn [snd]; auto].
  apply Z.eqb_eq in E. exfalso. apply H. f_equal. exact E.
Qed.

Lemma only_data_frames_touch_receive_side_witness :
  let c' := snd (readFrame established (Message (ackFrame 9))) in
  recvPipe c' = [] /\ recvNbUnacked c' = 0.
Proof.
  pose proof (only_data_frames_touch_receive_side established
                (Message (ackFrame 9))) as H.
  cbv zeta in H. destruct H as (H1 & H2 & _).
  - intros m E. injection E as <-. discriminate.
  - split; [exact H1|exact H2].
Defined.

Lemma readFrame_recvNbUnacked_range (c : Conn) (ev : recvEvent) :
  0 <= recvNbUnacked c < 2 ^ 64 ->
  0 <= recvNbUnacked (snd (readFrame c ev)) < 2 ^ 64.
Proof.
  intros Hr. unfold readFrame.
  destruct ev as [m| |]; [|exact Hr|exact Hr].
  destruct (Reader_Read m (make 8) 2) as [[buf r]|]; [|exact Hr].
  destruct (bigEndian (firstn 2 buf) =? subprotoTagSuccess).
  { unfold readSuccessFrame. break_match; exact Hr. }
  destruct (negb (connected c)); [exact Hr|].
  destruct (bigEndian (firstn 2 buf) =? subprotoTagAck).
  { unfold readAckFrame. break_match; exact Hr. }
  destruct (bigEndian (firstn 2 buf) =? subprotoTagData); [|exact Hr].
  pose proof (readDataFrame_fields c buf r) as (_ & _ & _ & _ & F5).
  destruct (readDataFrame c buf r) as [err c1]. cbn [snd] in F5.
  assert (H1 : 0 <= recvNbUnacked c1 < 2 ^ 64).
  { destruct F5 as [->|(len & _ & ->)]; [exact Hr|].
    unfold add64, uint64. apply Z.mod_pos_bound. reflexivity. }
  destruct (_ >? _); [|exact H1].
  unfold writeAck. destruct (wsClosed c1); exact H1.
Qed.

(** X8.  The acknowledgement round trip.  Whenever the inbound loop of a
    connection [b] (with receive-unacknowledged in the 64-bit range) sends a
    message, an established peer connection [a] that receives this message
    accepts it and its [Sent] becomes the [Received] of [b]. *)
Theorem ack_round_trip
  (a b : Conn) (ev : recvEvent) (m : list byte) :
  0 <= recvNbUnacked b < 2 ^ 64 ->
  connected a = true ->
  let b' := snd (readFrame b ev) in
  wsSent b' = wsSent b ++ [m] ->
  let r := readFrame a (Message m) in
  fst r = None /\ Sent (snd r) = Received b'.
Proof.
  intros Hr Hc b' Hm r.
  pose proof (readFrame_recvNbUnacked_range b ev Hr) as Hr'. fold b' in Hr'.
  pose proof (readFrame_sent_received b ev) as S.
  cbv zeta in S. fold b' in S. destruct S as [(E & _)|(E & R)].
  - rewrite E in Hm. exfalso.
    apply (f_equal (@length (list byte))) in Hm.
    rewrite length_app in Hm. cbn in Hm. lia.
  - rewrite E in Hm. apply app_inv_head in Hm. injection Hm as <-.
    unfold r. rewrite R.
    destruct (readFrame_ackFrame a (recvNbUnacked b') Hc Hr') as (_ & _ & ->).
    split; reflexivity.
Qed.

Lemma ack_round_trip_witness :
  let m := dataFrame (repeat "x"%byte (Z.to_nat subprotoMaxFrameSize)) in
  let b := snd (read established [Message m; Message m]) in
  let b' := snd (readFrame b (Message m)) in
  Received b' = 49152
  /\ Sent (snd (readFrame established (Message (ackFrame 49152)))) = Received b'.
Proof.
  intros m b b'.
  assert (R : Received b' = 49152) by (vm_compute; reflexivity).
  split; [exact R|].
  assert (Hr : 0 <= recvNbUnacked b < 2 ^ 64)
    by (vm_compute; split; [discriminate|reflexivity]).
  pose proof (ack_round_trip established b (Message m) (ackFrame 49152)
                Hr eq_refl) as H.
  cbv zeta in H. apply H. vm_compute. reflexivity.
Defined.

(** ** Further properties: Dial *)

Lemma readFrame_newConn (ev : recvEvent) :
  fst (readFrame newConn ev) = None ->
  let c := snd (readFrame newConn ev) in
  connected c = true
  /\ Sent c = 0 /\ Received c = 0
  /\ recvNbUnacked c = 0 /\ sendNbUnacked c = 0
  /\ wsSent c = [] /\ recvPipe c = [] /\ wsClosed c = false.
Proof.
  unfold readFrame.
  destruct ev as [m| |]; [|discriminate|discriminate].
  destruct (Reader_Read m (make 8) 2) as [[buf r]|]; [|discriminate].
  destruct (bigEndian (firstn 2 buf) =? subprotoTagSuccess);
    [|discriminate].
  unfold readSuccessFrame.
  break_match; cbn; try discriminate. intros _. repeat split.
Qed.

(** X9.  [Dial] returns a connection only after a completed handshake:
    whatever the first event is, a connection that is returned is marked
    connected, comes with no error and with both loops started, has all
    four counters at zero and has sent nothing. *)
Theorem dial_returns_established_connection
  (ev : recvEvent) (c : Conn) (err : option error) (gs : list goroutine) :
  Dial None ev = (Some c, err, gs) ->
  err = None /\ gs = [go_read; go_write]
  /\ connected c = true
  /\ Sent c = 0 /\ Received c = 0
  /\ recvNbUnacked c = 0 /\ sendNbUnacked c = 0
  /\ wsSent c = [].
Proof.
  unfold Dial. intros H.
  pose proof (readFrame_newConn ev) as F.
  destruct (readFrame newConn ev) as [[e|] c1]; [discriminate|].
  injection H as <- <- <-.
  destruct (F eq_refl) as (F1 & F2 & F3 & F4 & F5 & F6 & _).
  repeat split; assumption.
Qed.

Lemma dial_returns_established_connection_witness :
  connected established = true /\ Sent established = 0
  /\ wsSent established = [].
Proof.
  pose proof (dial_returns_established_connection
                (Message (successFrame abc)) established None
                [go_read; go_write] eq_refl)
    as (_ & _ & H3 & H4 & _ & _ & _ & H8).
  repeat split; assumption.
Defined.

(** X10.  The handshake round trip.  When the first message is a Success
    frame with a session identifier of 1 to 16384 bytes, [Dial] returns a
    connection whose [SessionID] is that identifier, and starts both
    loops. *)
Theorem dial_accepts_success_frame (sid : list byte) :
  sid <> [] ->
  Z.of_nat (length sid) <= subprotoMaxFrameSize ->
  exists c,
    Dial None (Message (successFrame sid)) = (Some c, None, [go_read; go_write])
    /\ SessionID c = sid /\ connected c = true.
Proof.
  intros Hne Hlen. unfold Dial.
  rewrite readFrame_successFrame by exact Hlen.
  destruct sid as [|b sid']; [congruence|].
  eexists. split; [reflexivity|]. split; reflexivity.
Qed.

Lemma dial_accepts_success_frame_witness :
  exists c,
    Dial None (Message (successFrame xyz)) = (Some c, None, [go_read; go_write])
    /\ SessionID c = xyz /\ connected c = true.
Proof.
  apply (dial_accepts_success_frame xyz).
  - discriminate.
  - vm_compute. discriminate.
Defined.

(** ** Further properties: the outbound side *)

(** X11.  After [Close] has returned, the outbound loop exits on its next
    turn without sending anything: the closed channel makes [writeFrame]
    return [io.EOF]. *)
Theorem outbound_loop_exits_after_close
  (c c1 : Conn) (err : option error) :
  Close c = (Returns err, c1) ->
  writeFrame c1 = (Returns (Some io_EOF), c1)
  /\ write c1 = (Exited, c1)
  /\ wsSent c1 = wsSent c
  /\ sendNbUnacked c1 = sendNbUnacked c
  /\ wsClosed c1 = true.
Proof.
  unfold Close. intros H.
  destruct (sendNbChClosed c); [discriminate|].
  injection H as _ <-. repeat split.
Qed.

Lemma outbound_loop_exits_after_close_witness :
  write (snd (Close established)) = (Exited, snd (Close established)).
Proof.
  apply (outbound_loop_exits_after_close established
           (snd (Close established)) None).
  reflexivity.
Defined.

(** X12.  On a closed transport the outbound loop sends nothing: the first
    non-empty [Write] that is announced makes it exit with the error of the
    transport, and send-unacknowledged stays as it was. *)
Theorem outbound_loop_exits_on_closed_transport
  (c : Conn) (buf : list byte) (bufs : list (list byte)) :
  wsClosed c = true -> sendNbChClosed c = false -> sendNbCh c = [] ->
  buf <> [] ->
  let r := sequentialWrites c (buf :: bufs) in
  fst r = Exited
  /\ wsSent (snd r) = wsSent c
  /\ sendNbUnacked (snd r) = sendNbUnacked c
  /\ exists msg,
       writeFrame (snd (Write c buf)) = (Returns (Some (ErrTransport msg)),
                                         snd r).
Proof.
  intros Hw Hcl Hq Hne r.
  assert (Hpos : 0 < Z.of_nat (length buf))
    by (destruct buf; [congruence|cbn [length]; lia]).
  assert (Hfuel : exists k,
             Z.to_nat (Z.of_nat (length buf) / subprotoMaxFrameSize + 1) = S k).
  { assert (0 <= Z.of_nat (length buf) / subprotoMaxFrameSize)
      by (apply Z.div_pos; unfold subprotoMaxFrameSize; lia).
    exists (Z.to_nat (Z.of_nat (length buf) / subprotoMaxFrameSize)). lia. }
  destruct Hfuel as (k & Hk).
  assert (Hwf : writeFrame (snd (Write c buf))
                = (Returns (Some (ErrTransport "writer")),
                   set_sendNbCh []
                     (set_sendPipe (sendPipe c ++ buf)
                        (set_sendNbCh [Z.of_nat (length buf)] c)))).
  { unfold Write. rewrite Hcl, Hq. cbn [snd app]. unfold writeFrame.
    cbn [sendNbCh set_sendPipe set_sendNbCh]. rewrite Hk.
    cbn [writeChunks].
    replace (Z.of_nat (length buf) >? 0) with true
      by (symmetry; apply Z.gtb_lt; lia).
    cbn [wsClosed set_sendNbCh set_sendPipe]. rewrite Hw. reflexivity. }
  assert (Hr : r = (Exited,
                    set_sendNbCh []
                      (set_sendPipe (sendPipe c ++ buf)
                         (set_sendNbCh [Z.of_nat (length buf)] c)))).
  { unfold r. cbn [sequentialWrites].
    unfold Write in *. rewrite Hcl, Hq in *. cbn [snd app] in *.
    assert (Eo : match buf with [] => Blocks | _ :: _ => Returns None end
                 = Returns None) by (destruct buf; congruence).
    rewrite Eo.
    unfold write. cbn [sendNbCh set_sendPipe set_sendNbCh length writeTurns].
    rewrite Hwf. reflexivity. }
  rewrite Hr. cbn [fst snd]. repeat split.
  exists "writer"%string. exact Hwf.
Qed.

Lemma outbound_loop_exits_on_closed_transport_witness :
  let c := set_wsClosed true established in
  fst (sequentialWrites c [abc; xyz]) = Exited
  /\ wsSent (snd (sequentialWrites c [abc; xyz])) = [].
Proof.
  intros c.
  pose proof (outbound_loop_exits_on_closed_transport c abc [xyz]
                eq_refl eq_refl eq_refl) as H.
  cbv zeta in H. destruct H as (H1 & H2 & _).
  - discriminate.
  - split; [exact H1|exact H2].
Defined.

Lemma fold_add64 (ps : list (list byte)) :
  forall s : Z,
    0 <= s < 2 ^ 64 ->
    fold_left (fun n p => add64 n (Z.of_nat (length p))) ps s
    = (s + Z.of_nat (length (concat ps))) mod 2 ^ 64.
Proof.
  induction ps as [|p ps IH]; intros s Hs.
  - cbn. rewrite Z.add_0_r. symmetry. apply Z.mod_small. exact Hs.
  - cbn [fold_left concat]. rewrite IH
      by (unfold add64, uint64; apply Z.mod_pos_bound; reflexivity).
    unfold add64, uint64. rewrite Zplus_mod_idemp_l.
    rewrite length_app. f_equal. lia.
Qed.

Lemma concat_flat_map_chunks (bufs : list (list byte)) :
  concat (flat_map chunks bufs) = concat bufs.
Proof.
  induction bufs as [|buf bufs IH]; [reflexivity|].
  cbn [flat_map concat]. rewrite concat_app, concat_chunks, IH. reflexivity.
Qed.

(** X13.  Send-unacknowledged counts the bytes written.  After sequential
    writes of non-empty buffers on an idle connection with an open
    transport, send-unacknowledged has grown by the total number of bytes
    written, modulo 2^64, and [Sent] has not moved. *)
Theorem written_bytes_are_counted (c : Conn) (bufs : list (list byte)) :
  wsClosed c = false -> sendNbChClosed c = false ->
  sendNbCh c = [] -> sendPipe c = [] ->
  Forall (fun buf => buf <> []) bufs ->
  0 <= sendNbUnacked c < 2 ^ 64 ->
  let c' := snd (sequentialWrites c bufs) in
  sendNbUnacked c'
  = (sendNbUnacked c + Z.of_nat (length (concat bufs))) mod 2 ^ 64
  /\ Sent c' = Sent c.
Proof.
  intros Hw Hcl Hq Hp Hne Hs c'. unfold c'.
  rewrite sequentialWrites_chunks by assumption. cbn [snd].
  pose proof (framed_idle (flat_map chunks bufs) c)
    as (_ & _ & _ & _ & F5 & _ & F7).
  rewrite F7, fold_add64 by exact Hs.
  rewrite concat_flat_map_chunks. split; [reflexivity|exact F5].
Qed.

Lemma written_bytes_are_counted_witness :
  sendNbUnacked (snd (sequentialWrites established [abc; xyz; abc])) = 9.
Proof.
  assert (Hne : Forall (fun b : list byte => b <> []) [abc; xyz; abc])
    by (repeat constructor; discriminate).
  pose proof (written_bytes_are_counted established [abc; xyz; abc]
                eq_refl eq_refl eq_refl eq_refl Hne) as H.
  cbv zeta in H. destruct H as (H1 & _).
  - vm_compute. split; [discriminate|reflexivity].
  - rewrite H1. reflexivity.
Defined.

Lemma length_dataFrame (p : list byte) :
  length (dataFrame p) = (6 + length p)%nat.
Proof.
  unfold dataFrame. rewrite !length_app, !length_putBigEndian. lia.
Qed.

(** X14.  What goes on the wire.  Every message the outbound loop sends for
    sequential writes is a Data frame: six bytes of header with tag 0x4,
    followed by 1 to 16384 bytes of payload. *)
Theorem outbound_messages_are_bounded_data_frames
  (c : Conn) (bufs : list (list byte)) :
  wsClosed c = false -> sendNbChClosed c = false ->
  sendNbCh c = [] -> sendPipe c = [] ->
  exists wire,
    wsSent (snd (sequentialWrites c bufs)) = wsSent c ++ wire
    /\ Forall (fun m => frameTag m = Some subprotoTagData
                        /\ 6 < Z.of_nat (length m)
                               <= 6 + subprotoMaxFrameSize) wire.
Proof.
  intros Hw Hcl Hq Hp.
  exists (map dataFrame (flat_map chunks (writtenPrefix bufs))). split.
  - rewrite sequentialWrites_written by assumption. reflexivity.
  - apply Forall_map.
    assert (Hall : Forall (fun p => 0 < Z.of_nat (length p)
                                    <= subprotoMaxFrameSize)
                     (flat_map chunks (writtenPrefix bufs))).
    { clear. induction (writtenPrefix bufs) as [|buf l IH]; [constructor|].
      cbn [flat_map]. apply Forall_app. split; [|exact IH].
      apply Forall_chunksOf. }
    eapply Forall_impl; [|exact Hall]. cbv beta. intros p Hlen.
    split; [reflexivity|]. rewrite length_dataFrame. lia.
Qed.

Lemma outbound_messages_are_bounded_data_frames_witness :
  exists wire,
    wsSent (snd (sequentialWrites established [abc])) = wire
    /\ Forall (fun m => frameTag m = Some subprotoTagData
                        /\ 6 < Z.of_nat (length m)
                               <= 6 + subprotoMaxFrameSize) wire.
Proof.
  destruct (outbound_messages_are_bounded_data_frames established [abc]
              eq_refl eq_refl eq_refl eq_refl) as (wire & H1 & H2).
  exists wire. split; [exact H1|exact H2].
Defined.

(** X15.  Receive-unacknowledged counts the bytes delivered.  After the
    inbound loop has met Data frames with payloads of at most 16384 bytes on
    an established connection with open transport and conduit,
    receive-unacknowledged has grown by the number of bytes delivered,
    modulo 2^64. *)
Theorem delivered_bytes_are_counted (c : Conn) (ps : list (list byte)) :
  connected c = true -> recvPipeClosed c = false -> wsClosed c = false ->
  Forall (fun p => Z.of_nat (length p) <= subprotoMaxFrameSize) ps ->
  0 <= recvNbUnacked c < 2 ^ 64 ->
  recvNbUnacked (snd (read c (map (fun p => Message (dataFrame p)) ps)))
  = (recvNbUnacked c + Z.of_nat (length (concat ps))) mod 2 ^ 64.
Proof.
  intros Hc Hp Hw Hall Hr.
  pose proof (read_data_frames ps c Hc Hp Hw Hall) as H. cbv zeta in H.
  destruct H as (_ & _ & H3 & _). rewrite H3. apply fold_add64. exact Hr.
Qed.

Lemma delivered_bytes_are_counted_witness :
  recvNbUnacked (snd (read established
                        [Message (dataFrame abc); Message (dataFrame xyz)]))
  = 6.
Proof.
  pose proof (delivered_bytes_are_counted established [abc; xyz]
                eq_refl eq_refl eq_refl) as H.
  cbn [map] in H. rewrite H.
  - reflexivity.
  - repeat constructor; vm_compute; discriminate.
  - vm_compute. split; [discriminate|reflexivity].
Defined.

(** ** Further properties: connectURL *)

Lemma sortByKey_options (b1 b2 b3 b4 b5 b6 b7 b8 b9 : bool)
  (z r pj po n i ins h g : string) :
  sortByKey
    (keepIf b1 ("zone", z) (keepIf b2 ("region", r)
       (keepIf b3 ("project", pj) (keepIf b4 ("port", po)
          (keepIf b5 ("network", n) (keepIf b6 ("interface", i)
             (keepIf b7 ("instance", ins) (keepIf b8 ("host", h)
                (keepIf b9 ("group", g) [])))))))))%string
  = (keepIf b9 ("group", g) (keepIf b8 ("host", h)
       (keepIf b7 ("instance", ins) (keepIf b6 ("interface", i)
          (keepIf b5 ("network", n) (keepIf b4 ("port", po)
             (keepIf b3 ("project", pj) (keepIf b2 ("region", r)
                (keepIf b1 ("zone", z) [])))))))))%string.
Proof.
  destruct b1, b2, b3, b4, b5, b6, b7, b8, b9; vm_compute; reflexivity.
Qed.

(** X16.  The query of the connect URL lists exactly the options that are
    not empty, in ascending order of their names (group, host, instance,
    interface, network, port, project, region, zone), whatever the order in
    which the source lists them; with every option empty the URL has no
    query at all. *)
Theorem connectURL_lists_nonempty_options_sorted
  (QueryEscape : string -> string) (d : dialOptions) :
  connectURL QueryEscape d
  = URL_String "wss" proxyHost proxyPath
      (String.concat "&"
         (map (fun kv => QueryEscape (fst kv) ++ "=" ++ QueryEscape (snd kv))
            (filter (fun kv => negb (String.eqb (snd kv) ""))
               [("group", Group d); ("host", Host d);
                ("instance", Instance d); ("interface", Interface d);
                ("network", Network d); ("port", Port d);
                ("project", Project d); ("region", Region d);
                ("zone", Zone d)])))%string
  /\ connectURL QueryEscape (mkDialOptions "" "" "" "" "" "" "" "" "")
     = "wss://tunnel.cloudproxy.app/v4/connect"%string.
Proof.
  split; [|reflexivity].
  unfold connectURL, Encode. do 3 f_equal.
  destruct d as [z r pj po n i ins h g].
  exact (sortByKey_options
           (negb (String.eqb z "")) (negb (String.eqb r ""))
           (negb (String.eqb pj "")) (negb (String.eqb po ""))
           (negb (String.eqb n "")) (negb (String.eqb i ""))
           (negb (String.eqb ins "")) (negb (String.eqb h ""))
           (negb (String.eqb g "")) z r pj po n i ins h g).
Qed.
